(** * pace_west.py: granule dates, validation, assembly and cleaning

    A shallow embedding of [contributor_folders/isidora/pace_west.py].
    The script searches the PACE OCI Level-3 chlorophyll granules, reads one
    date out of every granule path, checks the counts, opens the granules as
    one dataset stacked along [time], overwrites the [time] coordinate with
    the extracted dates, selects a region and the nearest time slice, masks
    the non-positive values and clips the rest to a floor of 0.01.

    Conventions of the embedding:
    - a Python [str] is the [string] of its UTF-8 bytes; [\d] matches one
      character that the Unicode database of the interpreter gives the
      category Nd, whatever its script, and the parser of dates reads the
      ten ASCII digits only;
    - what the script takes from its interpreter and from pandas is a
      [Runtime]: the decimal digits of the Unicode database, and the
      resolution of the Timestamps that pandas builds (nanoseconds before
      pandas 3, microseconds from pandas 3 on);
    - a [pandas.Timestamp] at midnight is a record of year, month and day,
      with [value] its count of ticks of that resolution since 1970-01-01,
      in an int64;
    - a float of the chlorophyll array is [NaN], an infinity or a rational:
      the script only compares floats and takes a maximum, and neither
      operation rounds;
    - raising is the left injection of a sum, and the calls made so far are
      kept in a log that is threaded through the script. *)

From Stdlib Require Import String Ascii List ZArith QArith Bool Lia.
From Stdlib Require Import DecimalString.
Import ListNotations.

Local Open Scope string_scope.
Local Open Scope Z_scope.

(** ** What the script runs on *)

(** The resolution of the Timestamps of pandas. *)
Inductive time_unit : Type := ns | us.

(** [is_decimal c]: the code point [c] is a decimal digit of the Unicode
    database (category Nd); the ten ASCII digits are in every version of
    it.  [reso]: the resolution of the Timestamps. *)
Class Runtime : Type := {
  is_decimal : Z -> bool;
  ascii_decimal : forall c, 48 <= c <= 57 -> is_decimal c = true;
  reso : time_unit
}.

(** The first code point of each run of ten decimal digits, Unicode 14.0
    (the database of CPython 3.11). *)
Definition unicode_14_zeros : list Z :=
  [48; 1632; 1776; 1984; 2406; 2534; 2662; 2790; 2918; 3046; 3174; 3302;
   3430; 3558; 3664; 3792; 3872; 4160; 4240; 6112; 6160; 6470; 6608; 6784;
   6800; 6992; 7088; 7232; 7248; 42528; 43216; 43264; 43472; 43504; 43600;
   44016; 65296; 66720; 68912; 69734; 69872; 69942; 70096; 70384; 70736;
   70864; 71248; 71360; 71472; 71904; 72016; 72784; 73040; 73120; 92768;
   92864; 93008; 120782; 120792; 120802; 120812; 120822; 123200; 123632;
   125264; 130032].

Definition decimal_in (zeros : list Z) (c : Z) : bool :=
  existsb (fun z => (z <=? c) && (c <? z + 10)) zeros.

(** CPython 3.11 with pandas 2, the runtime the closed statements below are
    about unless they name another. *)
#[export] Instance cpython311_pandas2 : Runtime.
Proof.
  refine {| is_decimal := decimal_in unicode_14_zeros; reso := ns |}.
  intros c H; unfold decimal_in, unicode_14_zeros; cbn [existsb].
  apply orb_true_intro; left.
  apply andb_true_intro; split; [apply Z.leb_le | apply Z.ltb_lt]; lia.
Defined.

(** CPython 3.11 with pandas 3. *)
Definition cpython311_pandas3 : Runtime :=
  {| is_decimal := decimal_in unicode_14_zeros;
     ascii_decimal := @ascii_decimal cpython311_pandas2;
     reso := us |}.

(** ** Exceptions and calls *)

(** The exceptions the script can end with.  [ValueError] carries its
    message; the two of the script itself are built by [msg_no_date] and
    [msg_mismatch]. *)
Inductive exn : Type :=
| ValueError (msg : string)
| StrptimeError (date_str : string)
| OutOfBoundsDatetime (date_str : string)
| NoFilesToOpen
| ConflictingSizes (given size : nat)
| NoTimeIndex
| InvalidIndexError
| NotMonotonic
| OverflowError
| KeyError.

(** What a run does, in order: an iteration of the extraction loop on the
    handle of path [p], and the calls into xarray. *)
Inductive call : Type :=
| LoopBody (p : string)
| OpenMfdataset (paths : list string)
| AssignCoords
| SelRegion
| SelTime.

(** ** Characters of a [str] *)

Module Utf8.

Definition byte (c : ascii) : Z := Z.of_nat (nat_of_ascii c).

(** A continuation byte, and the six bits it carries. *)
Definition cont (c : ascii) : bool := (128 <=? byte c) && (byte c <? 192).

Definition low (c : ascii) : Z := byte c - 128.

(** The first character of [s]: its code point, its bytes and what follows
    them.  Nothing on the empty string and on bytes that encode no
    character. *)
Definition head (s : string) : option (Z * string * string) :=
  match s with
  | EmptyString => None
  | String b0 s1 =>
      if byte b0 <? 128 then Some (byte b0, String b0 EmptyString, s1)
      else if byte b0 <? 194 then None
      else if byte b0 <? 224 then
        match s1 with
        | String b1 s2 =>
            if cont b1
            then Some ((byte b0 - 192) * 64 + low b1,
                       String b0 (String b1 EmptyString), s2)
            else None
        | _ => None
        end
      else if byte b0 <? 240 then
        match s1 with
        | String b1 (String b2 s3) =>
            let cp := ((byte b0 - 224) * 64 + low b1) * 64 + low b2 in
            if cont b1 && cont b2 && (2048 <=? cp)
               && negb ((55296 <=? cp) && (cp <? 57344))
            then Some (cp, String b0 (String b1 (String b2 EmptyString)), s3)
            else None
        | _ => None
        end
      else if byte b0 <? 245 then
        match s1 with
        | String b1 (String b2 (String b3 s4)) =>
            let cp :=
              (((byte b0 - 240) * 64 + low b1) * 64 + low b2) * 64 + low b3 in
            if cont b1 && cont b2 && cont b3 && (65536 <=? cp)
               && (cp <=? 1114111)
            then Some (cp,
                       String b0
                         (String b1 (String b2 (String b3 EmptyString))),
                       s4)
            else None
        | _ => None
        end
      else None
  end.

End Utf8.

(** ** Regular expression [PACE_OCI\.(\d{8})] *)

Module Re.

(** [literal p s]: [p] matched at the start of [s], giving the rest. *)
Fixpoint literal (p s : string) : option string :=
  match p with
  | EmptyString => Some s
  | String a p' =>
      match s with
      | EmptyString => None
      | String b s' => if Ascii.eqb a b then literal p' s' else None
      end
  end.

(** [\d] matched at the start of [s]: the bytes of the digit and the
    rest. *)
Definition decimal_char {R : Runtime} (s : string)
  : option (string * string) :=
  match Utf8.head s with
  | Some (cp, c, rest) => if is_decimal cp then Some (c, rest) else None
  | None => None
  end.

(** [digits n s]: [\d{n}] matched at the start of [s], giving the digits. *)
Fixpoint digits {R : Runtime} (n : nat) (s : string) : option string :=
  match n with
  | O => Some EmptyString
  | S n' =>
      match decimal_char s with
      | Some (c, rest) =>
          match digits n' rest with
          | Some g => Some (c ++ g)
          | None => None
          end
      | None => None
      end
  end.

Definition token : string := "PACE_OCI.".

(** The pattern anchored at the start of [s]; the result is group 1. *)
Definition match_at {R : Runtime} (s : string) : option string :=
  match literal token s with
  | Some rest => digits 8 rest
  | None => None
  end.

(** [date_pattern.search]: the match at the leftmost position that has one.
    The pattern starts with an ASCII letter, which is no part of a longer
    character, so the positions can be taken byte by byte. *)
Fixpoint search {R : Runtime} (s : string) : option string :=
  match match_at s with
  | Some g => Some g
  | None =>
      match s with
      | EmptyString => None
      | String _ s' => search s'
      end
  end.

End Re.

(** ** Timestamps and [pd.to_datetime(_, format="%Y%m%d")] *)

Record Timestamp : Type := mkTimestamp { year : Z; month : Z; day : Z }.

Module Calendar.

Definition is_leap (y : Z) : bool :=
  ((y mod 4 =? 0) && negb (y mod 100 =? 0)) || (y mod 400 =? 0).

Definition days_in_month (y m : Z) : Z :=
  match m with
  | 1 => 31 | 2 => if is_leap y then 29 else 28 | 3 => 31 | 4 => 30
  | 5 => 31 | 6 => 30 | 7 => 31 | 8 => 31 | 9 => 30 | 10 => 31
  | 11 => 30 | 12 => 31
  | _ => 0
  end.

Definition days_before_year (y : Z) : Z :=
  365 * (y - 1) + (y - 1) / 4 - (y - 1) / 100 + (y - 1) / 400.

Definition days_before_month (y m : Z) : Z :=
  match m with
  | 1 => 0 | 2 => 31 | 3 => 59 | 4 => 90 | 5 => 120 | 6 => 151 | 7 => 181
  | 8 => 212 | 9 => 243 | 10 => 273 | 11 => 304 | 12 => 334
  | _ => 0
  end + (if (2 <? m) && is_leap y then 1 else 0).

(** Proleptic Gregorian ordinal, 0001-01-01 being day 1. *)
Definition toordinal (t : Timestamp) : Z :=
  days_before_year (year t) + days_before_month (year t) (month t) + day t.

Definition epoch_ordinal : Z := 719163.

Definition ticks_per_day {R : Runtime} : Z :=
  86400 * match reso with ns => 1000000000 | us => 1000000 end.

(** Ticks since 1970-01-01T00:00, the int64 a Timestamp stores. *)
Definition value {R : Runtime} (t : Timestamp) : Z :=
  (toordinal t - epoch_ordinal) * ticks_per_day.

(** The smallest int64 is NaT, so a Timestamp lies strictly above it. *)
Definition in_bounds {R : Runtime} (t : Timestamp) : bool :=
  (- 2 ^ 63 <? value t) && (value t <=? 2 ^ 63 - 1).

(** A month of the year and a day of that month. *)
Definition valid_date (t : Timestamp) : bool :=
  (1 <=? month t) && (month t <=? 12)
  && (1 <=? day t) && (day t <=? days_in_month (year t) (month t)).

(** Lexicographic order on year, month, day. *)
Definition date_leb (a b : Timestamp) : bool :=
  (year a <? year b)
  || ((year a =? year b)
      && ((month a <? month b)
          || ((month a =? month b) && (day a <=? day b)))).

(** First and last midnight a Timestamp is known to hold: the ends of the
    int64 at nanosecond resolution, the years 0001 to 9999 at microsecond
    resolution. *)
Definition first_day {R : Runtime} : Timestamp :=
  match reso with
  | ns => mkTimestamp 1677 9 22
  | us => mkTimestamp 1 1 1
  end.

Definition last_day {R : Runtime} : Timestamp :=
  match reso with
  | ns => mkTimestamp 2262 4 11
  | us => mkTimestamp 9999 12 31
  end.

End Calendar.

Module Strptime.

(** One of the ten ASCII digits, the only ones the parser reads. *)
Definition ascii_digit (c : ascii) : bool :=
  (48 <=? Utf8.byte c) && (Utf8.byte c <=? 57).

Definition digit_value (c : ascii) : Z := Utf8.byte c - 48.

(** Decimal value of a string of digits, most significant first. *)
Fixpoint number_from (acc : Z) (s : string) : Z :=
  match s with
  | EmptyString => acc
  | String c s' => number_from (10 * acc + digit_value c) s'
  end.

Definition number (s : string) : Z := number_from 0 s.

Fixpoint all_digits (s : string) : bool :=
  match s with
  | EmptyString => true
  | String c s' => ascii_digit c && all_digits s'
  end.

(** The fields of a string in the format [%Y%m%d]: four ASCII digits of
    year, two of month in 01..12 and two of day in 01..31, with nothing left
    over. *)
Definition ymd (s : string) : Timestamp :=
  mkTimestamp (number (substring 0 4 s)) (number (substring 4 2 s))
    (number (substring 6 2 s)).

Definition fields (s : string) : option Timestamp :=
  if (String.length s =? 8)%nat && all_digits s then
    let t := ymd s in
    if (1 <=? month t) && (month t <=? 12) && (1 <=? day t) && (day t <=? 31)
    then Some t
    else None
  else None.

(** [pd.to_datetime(date_str, format="%Y%m%d")] on one string. *)
Definition to_datetime {R : Runtime} (date_str : string)
  : exn + Timestamp :=
  match fields date_str with
  | None => inl (StrptimeError date_str)
  | Some t =>
      if Calendar.valid_date t
      then if Calendar.in_bounds t
           then inr t
           else inl (OutOfBoundsDatetime date_str)
      else inl (StrptimeError date_str)
  end.

End Strptime.

(** ** Floats of the chlorophyll array *)

Inductive float : Type :=
| NaN
| NegInf
| PosInf
| Fin (q : Q).

Module Float.

(** [x < y] as IEEE 754 has it: false as soon as one side is NaN. *)
Definition ltb (x y : float) : bool :=
  match x, y with
  | NaN, _ | _, NaN => false
  | _, NegInf => false
  | NegInf, _ => true
  | PosInf, _ => false
  | Fin _, PosInf => true
  | Fin a, Fin b => negb (Qle_bool b a)
  end.

(** [x <= y], again false on NaN. *)
Definition leb (x y : float) : bool :=
  match x, y with
  | NaN, _ | _, NaN => false
  | NegInf, _ => true
  | _, PosInf => true
  | _, NegInf => false
  | PosInf, _ => false
  | Fin a, Fin b => Qle_bool a b
  end.

(** [np.maximum]: NaN if one side is, the larger one otherwise. *)
Definition maximum (x y : float) : float :=
  match x, y with
  | NaN, _ | _, NaN => NaN
  | _, _ => if ltb x y then y else x
  end.

Definition zero : float := Fin (0 # 1).
Definition floor_value : float := Fin (1 # 100).

End Float.

(** ** The monad of the script: a log of calls, and exceptions *)

Definition M (A : Type) : Type := list call -> (exn + A) * list call.

Definition ret {A : Type} (a : A) : M A := fun l => (inr a, l).

Definition raise {A : Type} (e : exn) : M A := fun l => (inl e, l).

Definition bind {A B : Type} (m : M A) (k : A -> M B) : M B :=
  fun l =>
    match m l with
    | (inl e, l') => (inl e, l')
    | (inr a, l') => k a l'
    end.

Definition tell (c : call) : M unit := fun l => (inr tt, (l ++ [c])%list).

Definition lift {A : Type} (r : exn + A) : M A := fun l => (r, l).

Notation "x <- m ;; k" := (bind m (fun x => k))
  (at level 61, m at next level, right associativity).
Notation "m ;;; k" := (bind m (fun _ => k))
  (at level 61, right associativity).

(** A run from the empty log. *)
Definition run {A : Type} (m : M A) : (exn + A) * list call := m [].

(** ** Data *)

(** One mapped variable of a granule, row after row. *)
Definition raster : Type := list float.

(** A handle of [earthaccess.open]: its path and, once read, the
    [chlor_a] variable of the file behind it. *)
Record handle : Type := mkHandle { path : string; chlor_a : raster }.

(** The dataset stacked along [time]: the [time] coordinate, absent as long
    as the dimension has no labels, and one raster per position. *)
Record Dataset : Type :=
  mkDataset { ds_time : option (list Timestamp); ds_chlor_a : list raster }.

(** A slice at one time. *)
Record DataArray : Type :=
  mkDataArray { da_time : Timestamp; da_values : raster }.

(** ** Messages of the script's two errors *)

Definition decimal (n : nat) : string :=
  NilEmpty.string_of_uint (Nat.to_uint n).

Definition msg_no_date (p : string) : string :=
  "Could not extract date from: " ++ p.

Definition msg_mismatch (n_dates n_files : nat) : string :=
  "Mismatch: found " ++ decimal n_dates ++ " dates for "
  ++ decimal n_files ++ " files".

(** ** [Index.get_indexer(_, method="nearest")] on one label

    The time index holds the int64 values of its Timestamps.  A position is
    a [nat]; the library's -1 for "not found" is [None]. *)

Module Index.

Fixpoint is_monotonic_increasing (l : list Z) : bool :=
  match l with
  | a :: ((b :: _) as tl) => (a <=? b) && is_monotonic_increasing tl
  | _ => true
  end.

Fixpoint is_monotonic_decreasing (l : list Z) : bool :=
  match l with
  | a :: ((b :: _) as tl) => (b <=? a) && is_monotonic_decreasing tl
  | _ => true
  end.

Fixpoint is_unique (l : list Z) : bool :=
  match l with
  | [] => true
  | a :: tl => negb (existsb (Z.eqb a) tl) && is_unique tl
  end.

(** First and last position whose entry satisfies [p], counted from [i]. *)
Fixpoint first_from (i : nat) (p : Z -> bool) (l : list Z) : option nat :=
  match l with
  | [] => None
  | a :: tl => if p a then Some i else first_from (S i) p tl
  end.

Fixpoint last_from (i : nat) (p : Z -> bool) (l : list Z) : option nat :=
  match l with
  | [] => None
  | a :: tl =>
      match last_from (S i) p tl with
      | Some j => Some j
      | None => if p a then Some i else None
      end
  end.

(** [method="pad"]: the entry before the label in the order of the index,
    or the label itself. *)
Definition pad (l : list Z) (target : Z) : option nat :=
  if is_monotonic_increasing l
  then last_from 0 (fun a => a <=? target) l
  else last_from 0 (fun a => target <=? a) l.

(** [method="backfill"]: the entry after the label, or the label itself. *)
Definition backfill (l : list Z) (target : Z) : option nat :=
  if is_monotonic_increasing l
  then first_from 0 (fun a => target <=? a) l
  else first_from 0 (fun a => a <=? target) l.

(** Entry at a position; position -1 reads the last entry, as the
    library's array indexing does. *)
Definition take (l : list Z) (i : option nat) : Z :=
  match i with
  | Some n => nth n l 0
  | None => last l 0
  end.

(** The difference of two int64 as pandas takes it, with its check for
    overflow.  The smallest int64 stands for NaT; two midnights are never
    that far apart. *)
Definition sub_overflowsafe (a b : Z) : exn + Z :=
  let d := a - b in
  if (- 2 ^ 63 <? d) && (d <=? 2 ^ 63 - 1) then inr d else inl OverflowError.

(** [_difference_compat]: how far the entry at a position is from the
    label. *)
Definition distance (l : list Z) (target : Z) (i : option nat) : exn + Z :=
  match sub_overflowsafe (take l i) target with
  | inl e => inl e
  | inr d => inr (Z.abs d)
  end.

(** [_get_nearest_indexer]: both distances are taken, then the left
    neighbour wins when it is strictly closer on an increasing index,
    closer or as close on a decreasing one, and when there is no right
    neighbour. *)
Definition nearest (l : list Z) (target : Z) : exn + option nat :=
  match l with
  | [] => inr (pad l target)
  | _ =>
      let left := pad l target in
      let right := backfill l target in
      match distance l target left with
      | inl e => inl e
      | inr dl =>
          match distance l target right with
          | inl e => inl e
          | inr dr =>
              let op := if is_monotonic_increasing l then Z.ltb else Z.leb in
              inr (if op dl dr
                      || match right with None => true | Some _ => false end
                   then left
                   else right)
          end
      end
  end.

(** [get_indexer] with the checks it makes first, then the KeyError that
    xarray raises on a label that was not found. *)
Definition get_indexer_nearest (l : list Z) (target : Z) : exn + nat :=
  if negb (is_unique l) then inl InvalidIndexError
  else if negb (is_monotonic_increasing l || is_monotonic_decreasing l)
  then inl NotMonotonic
  else match nearest l target with
       | inl e => inl e
       | inr (Some i) => inr i
       | inr None => inl KeyError
       end.

End Index.

(** ** The script *)

Section Script.

Context {R : Runtime}.

(** The names the script uses without binding them: the region
    ([lat_west], [lon_west]), as the selection it makes in one raster, and
    the target [time]. *)
Variable lat_lon_west : raster -> raster.
Variable time : Timestamp.

(** Lines 27 to 31, the body of the loop on the path of one handle: the
    date to append, or the exception that ends the run. *)
Definition date_of_path (p : string) : exn + Timestamp :=
  match Re.search p with
  | None => inl (ValueError (msg_no_date p))
  | Some date_str => Strptime.to_datetime date_str
  end.

(** Lines 25 to 31: the loop over [fileset], appending to [dates]. *)
Fixpoint extract_dates (fileset : list handle) (dates : list Timestamp)
  : M (list Timestamp) :=
  match fileset with
  | [] => ret dates
  | f :: rest =>
      tell (LoopBody (path f)) ;;;
      t <- lift (date_of_path (path f)) ;;
      extract_dates rest (dates ++ [t])
  end.

(** Lines 34 and 35: the sanity check. *)
Definition sanity_check (dates : list Timestamp) (fileset : list handle)
  : M unit :=
  if negb (length dates =? length fileset)%nat
  then raise (ValueError (msg_mismatch (length dates) (length fileset)))
  else ret tt.

(** [xr.open_mfdataset(fileset, combine="nested", concat_dim="time")]: one
    position of the new dimension per granule, in the order of [fileset],
    and no labels on it. *)
Definition open_mfdataset (fileset : list handle) : M Dataset :=
  tell (OpenMfdataset (map path fileset)) ;;;
  match fileset with
  | [] => raise NoFilesToOpen
  | _ => ret (mkDataset None (map chlor_a fileset))
  end.

(** [CHL.assign_coords(time=("time", dates))]. *)
Definition assign_coords_time (CHL : Dataset) (dates : list Timestamp)
  : M Dataset :=
  tell AssignCoords ;;;
  if (length dates =? length (ds_chlor_a CHL))%nat
  then ret (mkDataset (Some dates) (ds_chlor_a CHL))
  else raise (ConflictingSizes (length dates) (length (ds_chlor_a CHL))).

(** [CHL.sel(lat=lat_west, lon=lon_west)]. *)
Definition sel_lat_lon (CHL : Dataset) : M Dataset :=
  tell SelRegion ;;;
  ret (mkDataset (ds_time CHL) (map lat_lon_west (ds_chlor_a CHL))).

(** [.chlor_a.sel(time=time, method='nearest')]. *)
Definition sel_time_nearest (CHL : Dataset) (target : Timestamp)
  : M DataArray :=
  tell SelTime ;;;
  match ds_time CHL with
  | None => raise NoTimeIndex
  | Some times =>
      i <- lift (Index.get_indexer_nearest (map Calendar.value times)
                   (Calendar.value target)) ;;
      ret (mkDataArray (nth i times target) (nth i (ds_chlor_a CHL) []))
  end.

(** [.where(lambda x: x > 0)] on one element and on an array. *)
Definition where_positive_1 (x : float) : float :=
  if Float.ltb Float.zero x then x else NaN.

Definition where_positive (a : raster) : raster := map where_positive_1 a.

(** [.clip(min=0.01)] on one element and on an array. *)
Definition clip_min_1 (x : float) : float := Float.maximum x Float.floor_value.

Definition clip_min (a : raster) : raster := map clip_min_1 a.

(** The cleaning of lines 47 and 48. *)
Definition cleaning (a : raster) : raster := clip_min (where_positive a).

(** Lines 34 to 44 for given [dates]: the check, the assembly and the
    overwriting of the time coordinate. *)
Definition assemble (dates : list Timestamp) (fileset : list handle)
  : M Dataset :=
  sanity_check dates fileset ;;;
  CHL <- open_mfdataset fileset ;;
  assign_coords_time CHL dates.

(** Lines 46 to 48: selection and cleaning. *)
Definition select_and_clean (CHL : Dataset) : M DataArray :=
  CHL_west <- sel_lat_lon CHL ;;
  CHL_west <- sel_time_nearest CHL_west time ;;
  ret (mkDataArray (da_time CHL_west) (cleaning (da_values CHL_west))).

(** Everything after the loop, for given [dates]. *)
Definition after_loop (dates : list Timestamp) (fileset : list handle)
  : M DataArray :=
  CHL <- assemble dates fileset ;;
  select_and_clean CHL.

(** The script from line 25 on, for the handles of line 20. *)
Definition script (fileset : list handle) : M DataArray :=
  dates <- extract_dates fileset [] ;;
  after_loop dates fileset.

End Script.

(** ** Vocabulary of the statements *)

(** [Re.digits n ds = Some ds] says that [ds] is [n] decimal digits and
    nothing else. *)

(** [pre] is where the pattern matches first in [p]: no match starts at a
    position before the end of [pre]. *)
Definition leftmost {R : Runtime} (pre p : string) : Prop :=
  forall pre' ds' post',
    p = (pre' ++ Re.token ++ ds' ++ post')%string ->
    Re.digits 8 ds' = Some ds' ->
    (String.length pre <= String.length pre')%nat.

(** No match of the pattern starts inside [pre] when [rest] follows it. *)
Fixpoint no_match_in {R : Runtime} (pre rest : string) : bool :=
  match pre with
  | EmptyString => true
  | String a pre' =>
      match Re.match_at (String a (pre' ++ rest)) with
      | Some _ => false
      | None => no_match_in pre' rest
      end
  end.

(** The log of a loop that went through [fs]. *)
Definition visits (fs : list handle) : list call :=
  map (fun f => LoopBody (path f)) fs.

(** Every handle of [fs] gives a date, and [ts] are these dates in order. *)
Definition dated {R : Runtime} (fs : list handle) (ts : list Timestamp)
  : Prop :=
  Forall2 (fun f t => date_of_path (path f) = inr t) fs ts.

(** The two steps on one element. *)
Definition clean_1 (x : float) : float := clip_min_1 (where_positive_1 x).

(** The time axis and the target of the selection example. *)
Definition jun04 : Timestamp := mkTimestamp 2024 6 4.
Definition jun07 : Timestamp := mkTimestamp 2024 6 7.
Definition jun10 : Timestamp := mkTimestamp 2024 6 10.

(** How far the entry at a position is from the label, without the int64. *)
Definition gap (l : list Z) (target : Z) (i : option nat) : Z :=
  Z.abs (target - Index.take l i).

(** The position [Index.nearest] gives when both distances fit the int64. *)
Definition nearest_choice (l : list Z) (target : Z) : option nat :=
  match l with
  | [] => Index.pad l target
  | _ =>
      let left := Index.pad l target in
      let right := Index.backfill l target in
      let op :=
        if Index.is_monotonic_increasing l then Z.ltb else Z.leb in
      if op (gap l target left) (gap l target right)
         || match right with None => true | Some _ => false end
      then left
      else right
  end.

(** The choice of [Index.nearest] on an increasing index, with the
    comparison of the distances strict or not. *)
Definition nearest_core (strict : bool) (l : list Z) (target : Z)
  : option nat :=
  let left := Index.last_from 0 (fun a => a <=? target) l in
  let right := Index.first_from 0 (fun a => target <=? a) l in
  let dl := gap l target left in
  let dr := gap l target right in
  if (if strict then Z.ltb else Z.leb) dl dr
     || match right with None => true | Some _ => false end
  then left
  else right.

(** A Timestamp that pandas can hold: a date of the calendar whose value
    fits the int64. *)
Definition is_timestamp {R : Runtime} (t : Timestamp) : bool :=
  Calendar.valid_date t && Calendar.in_bounds t.

(** * Properties *)

(** ** Characters, the pattern and the search *)

Section SearchFacts.

Context {R : Runtime}.

Local Open Scope nat_scope.

Lemma append_assoc (a b c : string) :
  ((a ++ b) ++ c)%string = (a ++ b ++ c)%string.
Proof. induction a as [|x a IH]; simpl; [reflexivity | now rewrite IH]. Qed.

Lemma append_nil_r (a : string) : (a ++ EmptyString)%string = a.
Proof. induction a as [|x a IH]; simpl; [reflexivity | now rewrite IH]. Qed.

Lemma length_append (a b : string) :
  String.length (a ++ b) = String.length a + String.length b.
Proof. induction a as [|x a IH]; simpl; [reflexivity | now rewrite IH]. Qed.

(** The first character of a string is a prefix of it, and is read off its
    own bytes whatever follows them. *)
Lemma head_spec (s : string) (cp : Z) (c rest : string) :
  Utf8.head s = Some (cp, c, rest) ->
  s = (c ++ rest)%string
  /\ forall rest', Utf8.head (c ++ rest') = Some (cp, c, rest').
Proof.
  unfold Utf8.head.
  destruct s as [|b0 s1]; [discriminate|].
  destruct (Utf8.byte b0 <? 128)%Z eqn:H1.
  { intros H; inversion H; subst; split; [reflexivity|].
    intros rest'; simpl; now rewrite H1. }
  destruct (Utf8.byte b0 <? 194)%Z eqn:H2; [discriminate|].
  destruct (Utf8.byte b0 <? 224)%Z eqn:H3.
  { destruct s1 as [|b1 s2]; [discriminate|].
    destruct (Utf8.cont b1) eqn:C1; [|discriminate].
    intros H; inversion H; subst; split; [reflexivity|].
    intros rest'; simpl; now rewrite H1, H2, H3, C1. }
  destruct (Utf8.byte b0 <? 240)%Z eqn:H4.
  { destruct s1 as [|b1 [|b2 s3]]; try discriminate.
    match goal with |- (if ?c then _ else _) = _ -> _ => destruct c eqn:C end;
      [|discriminate].
    intros H; inversion H; subst; split; [reflexivity|].
    intros rest'; simpl; now rewrite H1, H2, H3, H4, C. }
  destruct (Utf8.byte b0 <? 245)%Z eqn:H5; [|discriminate].
  destruct s1 as [|b1 [|b2 [|b3 s4]]]; try discriminate.
  match goal with |- (if ?c then _ else _) = _ -> _ => destruct c eqn:C end;
    [|discriminate].
  intros H; inversion H; subst; split; [reflexivity|].
  intros rest'; simpl; now rewrite H1, H2, H3, H4, H5, C.
Qed.

(** An ASCII byte is a character by itself. *)
Lemma head_ascii (b : ascii) (s : string) :
  (Utf8.byte b < 128)%Z ->
  Utf8.head (String b s) = Some (Utf8.byte b, String b EmptyString, s).
Proof.
  intros H; unfold Utf8.head.
  apply Z.ltb_lt in H; now rewrite H.
Qed.

Lemma decimal_char_spec (s c rest : string) :
  Re.decimal_char s = Some (c, rest) ->
  s = (c ++ rest)%string
  /\ forall rest', Re.decimal_char (c ++ rest') = Some (c, rest').
Proof.
  unfold Re.decimal_char.
  destruct (Utf8.head s) as [[[cp c'] r]|] eqn:Hh; [|discriminate].
  destruct (is_decimal cp) eqn:Hd; [|discriminate].
  intros H; inversion H; subst c' r.
  destruct (head_spec _ _ _ _ Hh) as [E Hr].
  split; [exact E|].
  intros rest'; now rewrite Hr, Hd.
Qed.

Lemma literal_app (p s : string) : Re.literal p (p ++ s) = Some s.
Proof.
  induction p as [|a p IH]; simpl; [reflexivity|].
  now rewrite Ascii.eqb_refl.
Qed.

Lemma literal_inv (p s r : string) :
  Re.literal p s = Some r -> s = (p ++ r)%string.
Proof.
  revert s; induction p as [|a p IH]; simpl; intros s H.
  - now inversion H.
  - destruct s as [|b s]; [discriminate|].
    destruct (Ascii.eqb a b) eqn:E; [|discriminate].
    apply Ascii.eqb_eq in E; subst b.
    now rewrite (IH _ H).
Qed.

(** What [\d{n}] matches is a prefix, and is matched again whatever
    follows it. *)
Lemma digits_spec (n : nat) :
  forall s g,
    Re.digits n s = Some g ->
    (exists post, s = (g ++ post)%string)
    /\ forall post, Re.digits n (g ++ post) = Some g.
Proof.
  induction n as [|n IH]; intros s g H; simpl in H.
  - inversion H; subst; split; [now exists s | reflexivity].
  - destruct (Re.decimal_char s) as [[c rest]|] eqn:Hc; [|discriminate].
    destruct (Re.digits n rest) as [g'|] eqn:Hg; [|discriminate].
    inversion H; subst g; clear H.
    destruct (decimal_char_spec _ _ _ Hc) as [-> Hc'].
    destruct (IH _ _ Hg) as [[post ->] Hg'].
    split.
    + exists post; now rewrite append_assoc.
    + intros post'; cbn [Re.digits].
      now rewrite append_assoc, Hc', Hg'.
Qed.

Lemma digits_app (n : nat) (ds post : string) :
  Re.digits n ds = Some ds -> Re.digits n (ds ++ post) = Some ds.
Proof. intros H; exact (proj2 (digits_spec _ _ _ H) post). Qed.

Lemma digits_inv (n : nat) (s g : string) :
  Re.digits n s = Some g ->
  Re.digits n g = Some g /\ exists post, s = (g ++ post)%string.
Proof.
  intros H; destruct (digits_spec _ _ _ H) as [Hp Hg].
  split; [|exact Hp].
  specialize (Hg EmptyString); now rewrite append_nil_r in Hg.
Qed.

(** The ten ASCII digits are decimal digits of one byte each. *)
Lemma ascii_digits (ds : string) :
  Strptime.all_digits ds = true ->
  Re.digits (String.length ds) ds = Some ds.
Proof.
  induction ds as [|c ds IH]; simpl; intros H; [reflexivity|].
  apply andb_prop in H as [Hc Hds].
  unfold Strptime.ascii_digit in Hc.
  apply andb_prop in Hc as [Hlo Hhi].
  apply Z.leb_le in Hlo; apply Z.leb_le in Hhi.
  unfold Re.decimal_char.
  rewrite head_ascii by lia.
  rewrite ascii_decimal by lia.
  now rewrite (IH Hds).
Qed.

Lemma match_at_app (ds post : string) :
  Re.digits 8 ds = Some ds ->
  Re.match_at (Re.token ++ ds ++ post) = Some ds.
Proof.
  intros H; unfold Re.match_at.
  rewrite literal_app.
  now apply digits_app.
Qed.

Lemma match_at_inv (s g : string) :
  Re.match_at s = Some g ->
  Re.digits 8 g = Some g
  /\ exists post, s = (Re.token ++ g ++ post)%string.
Proof.
  unfold Re.match_at; intros H.
  destruct (Re.literal Re.token s) as [rest|] eqn:Hl; [|discriminate].
  apply literal_inv in Hl; subst s.
  destruct (digits_inv _ _ _ H) as (Hg & post & ->).
  split; [exact Hg | now exists post].
Qed.

Lemma search_here (s g : string) :
  Re.match_at s = Some g -> Re.search s = Some g.
Proof. intros H; destruct s; cbn [Re.search]; now rewrite H. Qed.

Lemma search_skip (a : ascii) (s : string) :
  Re.match_at (String a s) = None ->
  Re.search (String a s) = Re.search s.
Proof. intros H; cbn [Re.search]; now rewrite H. Qed.

Lemma search_leftmost (pre ds post : string) :
  Re.digits 8 ds = Some ds ->
  leftmost pre (pre ++ Re.token ++ ds ++ post) ->
  Re.search (pre ++ Re.token ++ ds ++ post) = Some ds.
Proof.
  intros Hds.
  induction pre as [|a pre IH]; intros Hleft.
  - apply search_here.
    change (Re.match_at (Re.token ++ ds ++ post) = Some ds).
    now apply match_at_app.
  - change (Re.search (String a (pre ++ Re.token ++ ds ++ post)) = Some ds).
    destruct (Re.match_at (String a (pre ++ Re.token ++ ds ++ post)))
      as [g|] eqn:Hm.
    + exfalso.
      destruct (match_at_inv _ _ Hm) as (Hg & post' & E).
      specialize (Hleft EmptyString g post' E Hg).
      simpl in Hleft; lia.
    + rewrite (search_skip _ _ Hm).
      apply IH.
      intros pre' ds' post' E Hd'.
      assert (H := Hleft (String a pre') ds' post').
      change ((String a pre' ++ Re.token ++ ds' ++ post')%string)
        with (String a (pre' ++ Re.token ++ ds' ++ post')) in H.
      rewrite <- E in H.
      specialize (H eq_refl Hd'); simpl in H; lia.
Qed.

(** The search finds nothing exactly when the pattern occurs nowhere. *)
Lemma search_none (p : string) :
  Re.search p = None <->
  (forall pre ds post,
      p = (pre ++ Re.token ++ ds ++ post)%string ->
      Re.digits 8 ds = Some ds -> False).
Proof.
  split.
  - intros Hs pre; revert p Hs.
    induction pre as [|a pre IH]; intros p Hs ds post E Hds.
    + assert (Hm : Re.match_at p = Some ds)
        by (rewrite E; now apply (match_at_app ds post)).
      rewrite (search_here _ _ Hm) in Hs; discriminate.
    + change ((String a pre ++ Re.token ++ ds ++ post)%string)
        with (String a (pre ++ Re.token ++ ds ++ post)) in E.
      subst p.
      destruct (Re.match_at (String a (pre ++ Re.token ++ ds ++ post)))
        as [g|] eqn:Hm.
      * rewrite (search_here _ _ Hm) in Hs; discriminate.
      * rewrite (search_skip _ _ Hm) in Hs.
        now apply (IH _ Hs ds post).
  - induction p as [|a p IH]; intros H.
    + cbn [Re.search].
      destruct (Re.match_at EmptyString) as [g|] eqn:Hm; [|reflexivity].
      destruct (match_at_inv _ _ Hm) as (Hg & post' & E).
      exfalso; now apply (H EmptyString g post').
    + destruct (Re.match_at (String a p)) as [g|] eqn:Hm.
      * destruct (match_at_inv _ _ Hm) as (Hg & post' & E).
        exfalso; now apply (H EmptyString g post').
      * rewrite (search_skip _ _ Hm).
        apply IH; intros pre ds post E Hds.
        apply (H (String a pre) ds post); trivial.
        now rewrite E.
Qed.

End SearchFacts.
(** ** Dates a Timestamp can hold *)

Section CalendarFacts.

Context {R : Runtime}.

Import Calendar.

Lemma days_before_year_step (y : Z) :
  364 <= days_before_year (y + 1) - days_before_year y.
Proof.
  unfold days_before_year.
  replace (y + 1 - 1) with y by lia.
  assert (0 <= y / 4 - (y - 1) / 4)
    by (Z.to_euclidean_division_equations; lia).
  assert (y / 100 - (y - 1) / 100 <= 1)
    by (Z.to_euclidean_division_equations; lia).
  assert (0 <= y / 400 - (y - 1) / 400)
    by (Z.to_euclidean_division_equations; lia).
  lia.
Qed.

Lemma days_before_year_mono_nat (y : Z) (n : nat) :
  days_before_year y + 364 * Z.of_nat n <= days_before_year (y + Z.of_nat n).
Proof.
  induction n as [|n IH].
  - change (Z.of_nat 0) with 0; replace (y + 0) with y by lia; lia.
  - pose proof (days_before_year_step (y + Z.of_nat n)).
    replace (y + Z.of_nat (S n)) with (y + Z.of_nat n + 1) by lia.
    lia.
Qed.

Lemma days_before_year_mono (y z : Z) :
  y <= z -> days_before_year y + 364 * (z - y) <= days_before_year z.
Proof.
  intros H.
  pose proof (days_before_year_mono_nat y (Z.to_nat (z - y))) as Hn.
  replace (y + Z.of_nat (Z.to_nat (z - y))) with z in Hn by lia.
  lia.
Qed.

(** Case analysis on a month known to lie between 1 and 12. *)
Ltac month_cases m :=
  let H := fresh "Hm" in
  assert (H : m = 1 \/ m = 2 \/ m = 3 \/ m = 4 \/ m = 5 \/ m = 6 \/ m = 7
              \/ m = 8 \/ m = 9 \/ m = 10 \/ m = 11 \/ m = 12) by lia;
  repeat (destruct H as [H|H]); subst m.

(** Boolean comparisons among the hypotheses, as propositions. *)
Ltac leb_hyps :=
  repeat match goal with
         | H : (_ && _)%bool = true |- _ => apply andb_prop in H as [? ?]
         | H : (_ <=? _) = true |- _ => apply Z.leb_le in H
         end.

(** Evaluates the month tables at a constant month, and nothing else. *)
Ltac month_tables :=
  lazy beta iota delta
    [days_before_month days_in_month Z.ltb Z.compare Pos.compare
     Pos.compare_cont andb] in *.

Lemma day_of_year_bounds (t : Timestamp) :
  valid_date t = true ->
  1 <= days_before_month (year t) (month t) + day t <= 366.
Proof.
  destruct t as [y m d]; unfold valid_date.
  cbn [year month day]; intros H.
  leb_hyps.
  month_cases m; month_tables; destruct (is_leap y); lia.
Qed.

Lemma valid_date_fields (t : Timestamp) :
  valid_date t = true -> 1 <= month t <= 12 /\ 1 <= day t <= 31.
Proof.
  destruct t as [y m d]; unfold valid_date.
  cbn [year month day]; intros H.
  leb_hyps.
  month_cases m; month_tables; destruct (is_leap y); lia.
Qed.

(** A valid date between the first and the last day fits the int64. *)
Lemma in_bounds_between (t : Timestamp) :
  valid_date t = true ->
  date_leb first_day t = true -> date_leb t last_day = true ->
  in_bounds t = true.
Proof.
  intros Hv Hlo Hhi.
  pose proof (day_of_year_bounds t Hv) as Hd.
  destruct t as [y m d].
  unfold date_leb, first_day, last_day in Hlo, Hhi.
  unfold valid_date in Hv.
  unfold in_bounds, value, toordinal, epoch_ordinal, ticks_per_day.
  cbn [year month day] in *.
  assert (E1 : days_before_year 1677 = 612147) by reflexivity.
  assert (E2 : days_before_year 2262 = 825813) by reflexivity.
  assert (E3 : days_before_year 1 = 0) by reflexivity.
  assert (E4 : days_before_year 10000 = 3652059) by reflexivity.
  destruct reso; cbn [year month day] in Hlo, Hhi.
  - assert (Hlo' : 1677 < y \/ (y = 1677 /\ (9 < m \/ (m = 9 /\ 22 <= d))))
      by lia.
    assert (Hhi' : y < 2262 \/ (y = 2262 /\ (m < 4 \/ (m = 4 /\ d <= 11))))
      by lia.
    clear Hlo Hhi.
    leb_hyps.
    assert (Hb : -106751 <= days_before_year y + days_before_month y m + d
                           - 719163 <= 106751).
    { split.
      - destruct (Z.eq_dec y 1677) as [->|Hy].
        + rewrite E1.
          month_cases m; month_tables;
            change (is_leap 1677) with false in *; lazy iota in *; lia.
        + assert (1678 <= y) by lia.
          pose proof (days_before_year_mono 1677 y). lia.
      - destruct (Z.eq_dec y 2262) as [->|Hy].
        + rewrite E2.
          month_cases m; month_tables;
            change (is_leap 2262) with false in *; lazy iota in *; lia.
        + assert (y <= 2261) by lia.
          pose proof (days_before_year_mono y 2262). lia. }
    apply andb_true_intro; split; [apply Z.ltb_lt | apply Z.leb_le]; lia.
  - assert (Hy : 1 <= y <= 9999) by lia.
    clear Hlo Hhi.
    pose proof (days_before_year_mono 1 y).
    pose proof (days_before_year_mono y 10000).
    apply andb_true_intro; split; [apply Z.ltb_lt | apply Z.leb_le]; lia.
Qed.

End CalendarFacts.

(** ** Date extraction on one path *)

Section DateOfPath.

Context {R : Runtime}.

Lemma leftmost_intro (pre rest : string) :
  no_match_in pre rest = true -> leftmost pre (pre ++ rest).
Proof.
  induction pre as [|a pre IH]; intros H pre' ds' post' E Hds.
  - simpl; lia.
  - cbn [no_match_in] in H.
    destruct (Re.match_at (String a (pre ++ rest))) as [g|] eqn:Hm;
      [discriminate|].
    destruct pre' as [|b pre'].
    + change (String a (pre ++ rest) = (Re.token ++ ds' ++ post')%string) in E.
      rewrite E, match_at_app in Hm; trivial; discriminate.
    + change (String a (pre ++ rest)
              = String b (pre' ++ Re.token ++ ds' ++ post')) in E.
      inversion E as [[Ea Er]].
      specialize (IH H pre' ds' post' Er Hds).
      simpl; lia.
Qed.

Lemma to_datetime_valid (ds : string) :
  String.length ds = 8%nat -> Strptime.all_digits ds = true ->
  Calendar.valid_date (Strptime.ymd ds) = true ->
  Calendar.date_leb Calendar.first_day (Strptime.ymd ds) = true ->
  Calendar.date_leb (Strptime.ymd ds) Calendar.last_day = true ->
  Strptime.to_datetime ds = inr (Strptime.ymd ds).
Proof.
  intros Hlen Hall Hv Hlo Hhi.
  unfold Strptime.to_datetime, Strptime.fields.
  rewrite Hlen, Hall; cbn [Nat.eqb andb].
  pose proof (in_bounds_between _ Hv Hlo Hhi) as Hb.
  assert (Hr : (1 <=? month (Strptime.ymd ds))
               && (month (Strptime.ymd ds) <=? 12)
               && (1 <=? day (Strptime.ymd ds))
               && (day (Strptime.ymd ds) <=? 31) = true).
  { pose proof (valid_date_fields _ Hv).
    repeat (apply andb_true_intro; split); apply Z.leb_le; lia. }
  now rewrite Hr, Hv, Hb.
Qed.

End DateOfPath.

(** [C1], as stated, fails: the path below holds [PACE_OCI.] and eight
    digits after it, the pattern matches, and the parsing of the digits
    raises, month 13 being no month; so it is with pandas 2 and with
    pandas 3. *)
Lemma date_of_path_month13 :
  "granules/PACE_OCI.20241301.L3m.DAY.CHL.nc"
  = ("granules/" ++ Re.token ++ "20241301" ++ ".L3m.DAY.CHL.nc")%string
  /\ String.length "20241301" = 8%nat
  /\ Strptime.all_digits "20241301" = true
  /\ date_of_path "granules/PACE_OCI.20241301.L3m.DAY.CHL.nc"
     = inl (StrptimeError "20241301")
  /\ date_of_path "granules/PACE_OCI.20241301.L3m.DAY.CHL.nc"
     <> inr (Strptime.ymd "20241301")
  /\ @date_of_path cpython311_pandas3
       "granules/PACE_OCI.20241301.L3m.DAY.CHL.nc"
     = inl (StrptimeError "20241301").
Proof.
  repeat split; vm_compute; discriminate.
Qed.

(** [C1], amended: when a path holds [PACE_OCI.] followed by eight ASCII
    digits, no match of the pattern starts before that place (the digits
    of [\d] being those of every script), and the eight digits read as
    YYYYMMDD are a month and a day of that month, between the first and
    the last day of the runtime (1677-09-22 and 2262-04-11 at nanosecond
    resolution, 0001-01-01 and 9999-12-31 at microsecond resolution), the
    extraction succeeds and returns that date. *)
Theorem date_of_path_valid {R : Runtime} (pre ds post : string) :
  String.length ds = 8%nat -> Strptime.all_digits ds = true ->
  leftmost pre (pre ++ Re.token ++ ds ++ post) ->
  Calendar.valid_date (Strptime.ymd ds) = true ->
  Calendar.date_leb Calendar.first_day (Strptime.ymd ds) = true ->
  Calendar.date_leb (Strptime.ymd ds) Calendar.last_day = true ->
  date_of_path (pre ++ Re.token ++ ds ++ post) = inr (Strptime.ymd ds).
Proof.
  intros Hlen Hall Hleft Hv Hlo Hhi.
  unfold date_of_path.
  assert (Hds : Re.digits 8 ds = Some ds)
    by (rewrite <- Hlen; now apply ascii_digits).
  rewrite (search_leftmost pre ds post Hds Hleft).
  now apply to_datetime_valid.
Qed.

Lemma date_of_path_valid_witness :
  date_of_path "s3://ob-cumulus/PACE_OCI.20240604.L3m.DAY.CHL.V3_0.chlor_a.4km.nc"
  = inr (mkTimestamp 2024 6 4).
Proof.
  apply (date_of_path_valid "s3://ob-cumulus/" "20240604"
           ".L3m.DAY.CHL.V3_0.chlor_a.4km.nc");
    try reflexivity.
  apply leftmost_intro; reflexivity.
Defined.

(** ** The extraction loop *)

Section Loop.

Context {R : Runtime}.

Local Open Scope list_scope.

Lemma dated_length (fs : list handle) (ts : list Timestamp) :
  dated fs ts -> length ts = length fs.
Proof. intros H; symmetry; exact (Forall2_length H). Qed.

Lemma dated_map (fs : list handle) (ts : list Timestamp) :
  dated fs ts <-> map (fun f => date_of_path (path f)) fs = map inr ts.
Proof.
  split.
  - induction 1 as [|f t fs ts Hft _ IH]; simpl; [reflexivity|].
    now rewrite Hft, IH.
  - revert ts; induction fs as [|f fs IH]; intros [|t ts] H;
      simpl in H; try discriminate; constructor.
    + now inversion H.
    + apply IH; now inversion H.
Qed.

(** A loop over handles that all give a date appends the dates in order. *)
Lemma extract_dates_dated (fs : list handle) (ts : list Timestamp) :
  dated fs ts ->
  forall dates log,
    extract_dates fs dates log = (inr (dates ++ ts), log ++ visits fs).
Proof.
  induction 1 as [|f t fs ts Hft _ IH]; intros dates log; simpl.
  - now rewrite !app_nil_r.
  - unfold bind, tell, lift; rewrite Hft.
    rewrite IH, <- !app_assoc; reflexivity.
Qed.

(** A loop that meets a failing handle after handles that give a date
    stops there, whatever follows. *)
Lemma extract_dates_stops (pre : list handle) (ts : list Timestamp)
  (f : handle) (e : exn) (rest : list handle) :
  dated pre ts -> date_of_path (path f) = inl e ->
  forall dates log,
    extract_dates (pre ++ f :: rest) dates log
    = (inl e, log ++ visits (pre ++ [f])).
Proof.
  induction 1 as [|g t pre ts Hgt _ IH]; intros Hf dates log; simpl.
  - unfold bind, tell, lift; now rewrite Hf.
  - unfold bind, tell, lift; rewrite Hgt.
    rewrite (IH Hf), <- !app_assoc; reflexivity.
Qed.

(** What a loop that returns has done. *)
Lemma extract_dates_inv (fs : list handle) :
  forall dates log dates' log',
    extract_dates fs dates log = (inr dates', log') ->
    exists ts, dated fs ts /\ dates' = dates ++ ts /\ log' = log ++ visits fs.
Proof.
  induction fs as [|f fs IH]; intros dates log dates' log' H; simpl in H.
  - inversion H; subst; exists []; repeat split;
      [constructor | now rewrite app_nil_r | now rewrite app_nil_r].
  - unfold bind, tell, lift in H.
    destruct (date_of_path (path f)) as [e|t] eqn:Hf; [discriminate|].
    destruct (IH _ _ _ _ H) as (ts & Hd & -> & ->).
    exists (t :: ts); repeat split.
    + now constructor.
    + now rewrite <- app_assoc.
    + now rewrite <- app_assoc.
Qed.

(** What a loop that raises has done: it went through handles that gave a
    date and stopped at the first one that did not. *)
Lemma extract_dates_raises (fs : list handle) :
  forall dates log e log',
    extract_dates fs dates log = (inl e, log') ->
    exists pre ts f rest,
      fs = pre ++ f :: rest /\ dated pre ts
      /\ date_of_path (path f) = inl e /\ log' = log ++ visits (pre ++ [f]).
Proof.
  induction fs as [|f fs IH]; intros dates log e log' H; simpl in H.
  - discriminate.
  - unfold bind, tell, lift in H.
    destruct (date_of_path (path f)) as [e'|t] eqn:Hf.
    + inversion H; subst.
      exists [], [], f, fs; repeat split; trivial; constructor.
    + destruct (IH _ _ _ _ H) as (pre & ts & g & rest & -> & Hd & Hg & ->).
      exists (f :: pre), (t :: ts), g, rest; repeat split; trivial.
      * now constructor.
      * now rewrite <- app_assoc.
Qed.

End Loop.

(** ** Extraction, validation and assembly *)

Section Pipeline.

Context {R : Runtime}.

Local Open Scope list_scope.

Variable lat_lon_west : raster -> raster.
Variable time : Timestamp.

Lemma date_of_path_no_match (p : string) :
  Re.search p = None -> date_of_path p = inl (ValueError (msg_no_date p)).
Proof. intros H; unfold date_of_path; now rewrite H. Qed.

(** The exceptions of the loop body are not the mismatch error. *)
Lemma date_of_path_not_mismatch (p : string) (e : exn) (n m : nat) :
  date_of_path p = inl e -> e <> ValueError (msg_mismatch n m).
Proof.
  unfold date_of_path, Strptime.to_datetime.
  destruct (Re.search p) as [ds|].
  - destruct (Strptime.fields ds) as [t|];
      [destruct (Calendar.valid_date t); [destruct (Calendar.in_bounds t)|]|];
      intros H; inversion H; discriminate.
  - intros H; inversion H; discriminate.
Qed.

Lemma sanity_check_equal (dates : list Timestamp) (fileset : list handle)
  (log : list call) :
  length dates = length fileset ->
  sanity_check dates fileset log = (inr tt, log).
Proof.
  intros H; unfold sanity_check.
  now rewrite H, Nat.eqb_refl.
Qed.

Lemma sanity_check_differ (dates : list Timestamp) (fileset : list handle)
  (log : list call) :
  length dates <> length fileset ->
  sanity_check dates fileset log
  = (inl (ValueError (msg_mismatch (length dates) (length fileset))), log).
Proof.
  intros H; unfold sanity_check.
  apply Nat.eqb_neq in H; now rewrite H.
Qed.

(** With as many dates as handles, and one handle at least, the assembly
    and the overwriting of the coordinate go through. *)
Lemma assemble_equal (dates : list Timestamp) (fileset : list handle)
  (log : list call) :
  length dates = length fileset -> fileset <> [] ->
  assemble dates fileset log
  = (inr (mkDataset (Some dates) (map chlor_a fileset)),
     log ++ [OpenMfdataset (map path fileset); AssignCoords]).
Proof.
  intros Hlen Hne; unfold assemble, bind.
  rewrite (sanity_check_equal _ _ _ Hlen).
  unfold open_mfdataset, assign_coords_time, bind, tell, ret.
  destruct fileset as [|f fs]; [contradiction|].
  cbn [ds_chlor_a].
  rewrite length_map, Hlen, Nat.eqb_refl, <- app_assoc; reflexivity.
Qed.

(** The one exception of the comparison of distances. *)
Lemma nearest_exn (l : list Z) (t : Z) (e : exn) :
  Index.nearest l t = inl e -> e = OverflowError.
Proof.
  assert (Hd : forall i e', Index.distance l t i = inl e' ->
                            e' = OverflowError).
  { intros i e'; unfold Index.distance, Index.sub_overflowsafe.
    destruct (_ && _); intros H; now inversion H. }
  unfold Index.nearest.
  destruct l as [|x l']; [discriminate|].
  destruct (Index.distance (x :: l') t (Index.pad (x :: l') t))
    as [e1|dl] eqn:H1.
  - intros H; inversion H; subst; exact (Hd _ _ H1).
  - destruct (Index.distance (x :: l') t (Index.backfill (x :: l') t))
      as [e2|dr] eqn:H2; [|discriminate].
    intros H; inversion H; subst; exact (Hd _ _ H2).
Qed.

(** The exceptions of the selection are those of the libraries. *)
Lemma select_and_clean_not_value_error (CHL : Dataset) (log : list call)
  (msg : string) :
  fst (select_and_clean lat_lon_west time CHL log) <> inl (ValueError msg).
Proof.
  unfold select_and_clean, sel_lat_lon, sel_time_nearest, bind, tell, ret,
    raise, lift; cbn [ds_time].
  destruct (ds_time CHL) as [times|]; [|simpl; discriminate].
  unfold Index.get_indexer_nearest.
  destruct (negb _); [simpl; discriminate|].
  destruct (negb _); [simpl; discriminate|].
  destruct (Index.nearest _ _) as [e|[i|]] eqn:Hn; simpl; try discriminate.
  rewrite (nearest_exn _ _ _ Hn); discriminate.
Qed.

End Pipeline.

(** ** Claims on the loop and on the check *)

(** [C3], as stated, fails: [README.txt] matches nowhere, yet the run ends
    at the handle before it, whose eight digits are no date, with the
    exception of the parsing; the handle of [README.txt] is never reached
    and no error names it. *)
Lemma extraction_stops_at_bad_date :
  let f1 := mkHandle "PACE_OCI.20241301.L3m.nc" [] in
  let f2 := mkHandle "README.txt" [] in
  Re.search (path f1) = Some "20241301"
  /\ Re.search (path f2) = None
  /\ run (extract_dates [f1; f2] [])
     = (inl (StrptimeError "20241301"), [LoopBody (path f1)])
  /\ fst (run (extract_dates [f1; f2] []))
     <> inl (ValueError (msg_no_date (path f2))).
Proof.
  repeat split; vm_compute; discriminate.
Qed.

(** [C3], amended: when the handles before the first path without a match
    all give a date, the loop raises the error whose message is
    "Could not extract date from: " followed by that path, and it has gone
    through the handles up to that one and through none after it. *)
Theorem extraction_fails_fast {R : Runtime}
  (pre : list handle) (ts : list Timestamp)
  (f : handle) (rest : list handle) :
  dated pre ts -> Re.search (path f) = None ->
  run (extract_dates (pre ++ f :: rest) [])
  = (inl (ValueError ("Could not extract date from: " ++ path f)),
     visits (pre ++ [f])).
Proof.
  intros Hpre Hf.
  apply date_of_path_no_match in Hf.
  exact (extract_dates_stops pre ts f _ rest Hpre Hf [] []).
Qed.

Lemma extraction_fails_fast_witness :
  let f1 := mkHandle "PACE_OCI.20240604.L3m.nc" [] in
  let f2 := mkHandle "README.txt" [] in
  let f3 := mkHandle "PACE_OCI.20240605.L3m.nc" [] in
  run (extract_dates [f1; f2; f3] [])
  = (inl (ValueError "Could not extract date from: README.txt"),
     [LoopBody "PACE_OCI.20240604.L3m.nc"; LoopBody "README.txt"]).
Proof.
  intros f1 f2 f3.
  apply (extraction_fails_fast [f1] [mkTimestamp 2024 6 4] f2 [f3]).
  - repeat constructor.
  - reflexivity.
Defined.

(** [C7]: when the loop returns, the dates are the handles mapped in order
    through the parsing of their paths; position by position, the date at
    [i] is the one of the path of the handle at [i]. *)
Theorem dates_follow_fileset {R : Runtime} (fileset : list handle)
  (dates : list Timestamp) (log : list call) :
  run (extract_dates fileset []) = (inr dates, log) ->
  map (fun f => date_of_path (path f)) fileset = map inr dates
  /\ forall i f, nth_error fileset i = Some f ->
       exists d, nth_error dates i = Some d
                 /\ date_of_path (path f) = inr d.
Proof.
  intros H.
  destruct (extract_dates_inv _ _ _ _ _ H) as (ts & Hd & E & _).
  simpl in E; subst ts.
  apply dated_map in Hd.
  split; [exact Hd|].
  intros i f Hi.
  assert (Hn := f_equal (fun l => nth_error l i) Hd).
  cbv beta in Hn.
  rewrite !nth_error_map, Hi in Hn; simpl in Hn.
  destruct (nth_error dates i) as [d|]; [|discriminate].
  exists d; split; [reflexivity|].
  now inversion Hn.
Qed.

Lemma dates_follow_fileset_witness :
  let f1 := mkHandle "PACE_OCI.20240610.L3m.nc" [] in
  let f2 := mkHandle "PACE_OCI.20240604.L3m.nc" [] in
  map (fun f => date_of_path (path f)) [f1; f2]
  = map inr [mkTimestamp 2024 6 10; mkTimestamp 2024 6 4].
Proof.
  intros f1 f2.
  apply (dates_follow_fileset [f1; f2] _
           [LoopBody (path f1); LoopBody (path f2)]).
  reflexivity.
Defined.

(** [C8]: when the loop returns, it has appended one date for every
    handle, the check passes, and no run of the script ends with the
    mismatch error. *)
Theorem mismatch_unreachable {R : Runtime} (lat_lon_west : raster -> raster)
  (time : Timestamp) (fileset : list handle) :
  (forall dates log,
      run (extract_dates fileset []) = (inr dates, log) ->
      length dates = length fileset
      /\ sanity_check dates fileset log = (inr tt, log))
  /\ (forall n m,
        fst (run (script lat_lon_west time fileset))
        <> inl (ValueError (msg_mismatch n m))).
Proof.
  split.
  - intros dates log H.
    destruct (extract_dates_inv _ _ _ _ _ H) as (ts & Hd & E & _).
    simpl in E; subst ts.
    pose proof (dated_length _ _ Hd) as Hlen.
    split; [exact Hlen | now apply sanity_check_equal].
  - intros n m; unfold run, script, bind.
    destruct (extract_dates fileset [] []) as [[e|dates] log] eqn:H.
    + destruct (extract_dates_raises _ _ _ _ _ H)
        as (pre & ts & f & rest & _ & _ & Hf & _).
      cbn [fst]; intros E; inversion E as [E'].
      exact (date_of_path_not_mismatch _ _ n m Hf E').
    + destruct (extract_dates_inv _ _ _ _ _ H) as (ts & Hd & E & _).
      simpl in E; subst ts.
      pose proof (dated_length _ _ Hd) as Hlen.
      unfold after_loop, bind.
      destruct fileset as [|f fs].
      * unfold assemble, bind.
        rewrite (sanity_check_equal _ _ _ Hlen).
        simpl; discriminate.
      * rewrite (assemble_equal _ _ _ Hlen) by discriminate.
        apply select_and_clean_not_value_error.
Qed.

Lemma mismatch_unreachable_witness :
  let f1 := mkHandle "PACE_OCI.20240610.L3m.nc" [] in
  let f2 := mkHandle "PACE_OCI.20240604.L3m.nc" [] in
  length [mkTimestamp 2024 6 10; mkTimestamp 2024 6 4] = length [f1; f2]
  /\ fst (run (script (fun r => r) (mkTimestamp 2024 6 7) [f1; f2]))
     <> inl (ValueError (msg_mismatch 1 2)).
Proof.
  intros f1 f2.
  destruct (mismatch_unreachable (fun r => r) (mkTimestamp 2024 6 7) [f1; f2])
    as [Hloop Hscript].
  split.
  - apply (Hloop _ [LoopBody (path f1); LoopBody (path f2)]).
    reflexivity.
  - apply Hscript.
Defined.

(** [C4]: with a count of dates that differs from the count of handles,
    what follows the loop raises the error whose message gives the two
    counts, and it makes no call before raising: the log is as it was, so
    the granules have not been opened as a dataset. *)
Theorem mismatch_raised_before_assembly {R : Runtime}
  (lat_lon_west : raster -> raster)
  (time : Timestamp) (dates : list Timestamp) (fileset : list handle)
  (log : list call) :
  length dates <> length fileset ->
  after_loop lat_lon_west time dates fileset log
  = (inl (ValueError
            ("Mismatch: found " ++ decimal (length dates) ++ " dates for "
             ++ decimal (length fileset) ++ " files")),
     log).
Proof.
  intros H; unfold after_loop, assemble, bind.
  now rewrite (sanity_check_differ _ _ _ H).
Qed.

Lemma mismatch_raised_before_assembly_witness :
  let f1 := mkHandle "PACE_OCI.20240610.L3m.nc" [] in
  let f2 := mkHandle "PACE_OCI.20240604.L3m.nc" [] in
  after_loop (fun r => r) (mkTimestamp 2024 6 7) [mkTimestamp 2024 6 10]
    [f1; f2] [LoopBody (path f1); LoopBody (path f2)]
  = (inl (ValueError "Mismatch: found 1 dates for 2 files"),
     [LoopBody (path f1); LoopBody (path f2)]).
Proof.
  intros f1 f2.
  apply (mismatch_raised_before_assembly (fun r => r) (mkTimestamp 2024 6 7)
           [mkTimestamp 2024 6 10] [f1; f2]).
  simpl; lia.
Defined.

(** [C5]: once the coordinate has been overwritten, the time coordinate of
    the dataset is the list of extracted dates: as long, equal at every
    position, and as long as the dataset has positions along [time]. *)
Theorem time_coordinate_is_dates {R : Runtime} (fileset : list handle)
  (dates : list Timestamp) (log : list call) (CHL : Dataset)
  (log' : list call) :
  run (extract_dates fileset []) = (inr dates, log) ->
  assemble dates fileset log = (inr CHL, log') ->
  exists times,
    ds_time CHL = Some times
    /\ length times = length dates
    /\ (forall i, nth_error times i = nth_error dates i)
    /\ length times = length (ds_chlor_a CHL).
Proof.
  intros H HA.
  destruct (extract_dates_inv _ _ _ _ _ H) as (ts & Hd & E & _).
  simpl in E; subst ts.
  pose proof (dated_length _ _ Hd) as Hlen.
  destruct fileset as [|f fs].
  - unfold assemble, bind in HA.
    rewrite (sanity_check_equal _ _ _ Hlen) in HA.
    simpl in HA; discriminate.
  - rewrite (assemble_equal _ _ _ Hlen) in HA by discriminate.
    inversion HA; subst; cbn [ds_time ds_chlor_a].
    exists dates; repeat split.
    change (length dates = length (map chlor_a (f :: fs))).
    now rewrite length_map.
Qed.

Lemma time_coordinate_is_dates_witness :
  let f1 := mkHandle "PACE_OCI.20240610.L3m.nc" [Fin 1] in
  let f2 := mkHandle "PACE_OCI.20240604.L3m.nc" [Fin 2] in
  let dates := [mkTimestamp 2024 6 10; mkTimestamp 2024 6 4] in
  exists times,
    ds_time (mkDataset (Some dates) [[Fin 1]; [Fin 2]]) = Some times
    /\ length times = length dates
    /\ (forall i, nth_error times i = nth_error dates i)
    /\ length times = length [[Fin 1]; [Fin 2]].
Proof.
  intros f1 f2 dates.
  apply (time_coordinate_is_dates [f1; f2] dates
           [LoopBody (path f1); LoopBody (path f2)]
           (mkDataset (Some dates) [[Fin 1]; [Fin 2]])
           [LoopBody (path f1); LoopBody (path f2);
            OpenMfdataset [path f1; path f2]; AssignCoords]);
    reflexivity.
Defined.

(** ** Cleaning: the mask and the floor *)

Section Cleaning.

Local Open Scope list_scope.

Lemma cleaning_map (a : raster) : cleaning a = map clean_1 a.
Proof. unfold cleaning, clip_min, where_positive; now rewrite map_map. Qed.

Lemma Qle_bool_false (a b : Q) : Qle_bool a b = false -> (b < a)%Q.
Proof.
  intros H; apply Qnot_le_lt; intros Hle.
  apply Qle_bool_iff in Hle; congruence.
Qed.

Lemma clean_1_nonpositive (x : float) :
  Float.leb x Float.zero = true -> clean_1 x = NaN.
Proof.
  destruct x as [| | |q]; simpl; try discriminate; try reflexivity.
  intros H; unfold clean_1, where_positive_1; simpl.
  now rewrite H.
Qed.

Lemma clean_1_below_floor (x : float) :
  Float.ltb Float.zero x = true -> Float.ltb x Float.floor_value = true ->
  clean_1 x = Float.floor_value.
Proof.
  destruct x as [| | |q]; simpl; try discriminate.
  intros H0 H1; unfold clean_1, where_positive_1; simpl.
  rewrite H0; unfold clip_min_1; simpl.
  now rewrite H1.
Qed.

Lemma clean_1_above_floor (x : float) :
  Float.leb Float.floor_value x = true -> clean_1 x = x.
Proof.
  destruct x as [| | |q]; simpl; try discriminate; try reflexivity.
  intros H; unfold clean_1, where_positive_1; simpl.
  destruct (Qle_bool q (0 # 1)) eqn:H0.
  - exfalso.
    apply Qle_bool_iff in H, H0.
    pose proof (Qle_trans _ _ _ H H0) as Hc.
    revert Hc; apply Qlt_not_le; reflexivity.
  - unfold clip_min_1; simpl.
    now rewrite H.
Qed.

Lemma clean_1_idempotent (x : float) : clean_1 (clean_1 x) = clean_1 x.
Proof.
  destruct x as [| | |q]; try reflexivity.
  destruct (Float.leb (Fin q) Float.zero) eqn:H0.
  - now rewrite (clean_1_nonpositive _ H0).
  - destruct (Float.leb Float.floor_value (Fin q)) eqn:H1.
    + now rewrite !(clean_1_above_floor _ H1).
    + rewrite (clean_1_below_floor (Fin q)); [reflexivity| |]; simpl in *.
      * now rewrite H0.
      * now rewrite H1.
Qed.

End Cleaning.

(** [C2]: the cleaning keeps the length of the array; an element at most 0
    becomes missing, a positive element below 0.01 becomes 0.01, an element
    of 0.01 or more is unchanged; and [-1, 0, 0.001, 5] becomes
    [missing, missing, 0.01, 5]. *)
Theorem cleaning_values (a : raster) :
  length (cleaning a) = length a
  /\ (forall i x, nth_error a i = Some x ->
        (Float.leb x Float.zero = true ->
         nth_error (cleaning a) i = Some NaN)
        /\ (Float.ltb Float.zero x = true ->
            Float.ltb x Float.floor_value = true ->
            nth_error (cleaning a) i = Some (Fin (1 # 100)))
        /\ (Float.leb Float.floor_value x = true ->
            nth_error (cleaning a) i = Some x))
  /\ cleaning [Fin (-1 # 1); Fin (0 # 1); Fin (1 # 1000); Fin (5 # 1)]
     = [NaN; NaN; Fin (1 # 100); Fin (5 # 1)].
Proof.
  rewrite cleaning_map.
  split; [apply length_map|].
  split; [|reflexivity].
  intros i x Hi.
  rewrite nth_error_map, Hi; cbn [option_map].
  repeat split; intros.
  - now rewrite clean_1_nonpositive.
  - now rewrite clean_1_below_floor.
  - now rewrite clean_1_above_floor.
Qed.

Lemma cleaning_values_witness :
  nth_error (cleaning [Fin (-1 # 1); Fin (1 # 1000); Fin (5 # 1)]) 0
  = Some NaN
  /\ nth_error (cleaning [Fin (-1 # 1); Fin (1 # 1000); Fin (5 # 1)]) 1
     = Some (Fin (1 # 100))
  /\ nth_error (cleaning [Fin (-1 # 1); Fin (1 # 1000); Fin (5 # 1)]) 2
     = Some (Fin (5 # 1)).
Proof.
  destruct (cleaning_values [Fin (-1 # 1); Fin (1 # 1000); Fin (5 # 1)])
    as (_ & H & _).
  split; [|split].
  - apply (H 0%nat (Fin (-1 # 1))); reflexivity.
  - apply (H 1%nat (Fin (1 # 1000))); reflexivity.
  - apply (H 2%nat (Fin (5 # 1))); reflexivity.
Defined.

(** [C9]: an entry that the mask has made missing is still missing after
    the clipping. *)
Theorem clip_keeps_missing (a : raster) (i : nat) :
  nth_error (where_positive a) i = Some NaN ->
  nth_error (clip_min (where_positive a)) i = Some NaN.
Proof.
  intros H; unfold clip_min.
  now rewrite nth_error_map, H.
Qed.

Lemma clip_keeps_missing_witness :
  nth_error (clip_min (where_positive [Fin (5 # 1); Fin (0 # 1)])) 1
  = Some NaN.
Proof.
  apply (clip_keeps_missing [Fin (5 # 1); Fin (0 # 1)] 1).
  reflexivity.
Defined.

(** [C10]: cleaning a cleaned array changes nothing. *)
Theorem cleaning_idempotent (a : raster) :
  cleaning (cleaning a) = cleaning a.
Proof.
  rewrite !cleaning_map, map_map.
  apply map_ext; intros x; apply clean_1_idempotent.
Qed.

(** ** Nearest time *)

Lemma sub_overflowsafe_fit (a b : Z) :
  - 2 ^ 63 < a - b <= 2 ^ 63 - 1 -> Index.sub_overflowsafe a b = inr (a - b).
Proof.
  intros [Hlo Hhi]; unfold Index.sub_overflowsafe.
  apply Z.ltb_lt in Hlo; apply Z.leb_le in Hhi.
  now rewrite Hlo, Hhi.
Qed.

(** On an increasing index of two entries, a label as far from the one as
    from the other, and not too far for the int64, selects the later
    entry. *)
Lemma nearest_tie_later (a b target : Z) :
  a < target -> target - a = b - target -> b - target <= 2 ^ 63 - 1 ->
  Index.get_indexer_nearest [a; b] target = inr 1%nat.
Proof.
  intros Ha Hd Hfit.
  unfold Index.get_indexer_nearest, Index.nearest, Index.pad,
    Index.backfill, Index.distance, Index.take.
  cbn [Index.is_unique Index.is_monotonic_increasing
       Index.is_monotonic_decreasing existsb Index.last_from
       Index.first_from nth last].
  replace (a =? b) with false by (symmetry; apply Z.eqb_neq; lia).
  replace (a <=? b) with true by (symmetry; apply Z.leb_le; lia).
  replace (b <=? target) with false by (symmetry; apply Z.leb_gt; lia).
  replace (a <=? target) with true by (symmetry; apply Z.leb_le; lia).
  replace (target <=? a) with false by (symmetry; apply Z.leb_gt; lia).
  replace (target <=? b) with true by (symmetry; apply Z.leb_le; lia).
  cbn [negb orb andb].
  rewrite !sub_overflowsafe_fit by lia.
  replace (Z.abs (a - target) <? Z.abs (b - target)) with false
    by (symmetry; apply Z.ltb_ge; lia).
  reflexivity.
Qed.

(** [C6], as stated, fails: on the axis [2024-06-04, 2024-06-10] the
    target 2024-06-07 is three days from both entries, and the selection
    returns the slice of 2024-06-10, not the one of 2024-06-04. *)
Lemma tie_selects_later_slice :
  sel_time_nearest (mkDataset (Some [jun04; jun10]) [[Fin (4 # 1)]; [Fin (10 # 1)]])
    jun07 []
  = (inr (mkDataArray jun10 [Fin (10 # 1)]), [SelTime])
  /\ sel_time_nearest
       (mkDataset (Some [jun04; jun10]) [[Fin (4 # 1)]; [Fin (10 # 1)]])
       jun07 []
     <> (inr (mkDataArray jun04 [Fin (4 # 1)]), [SelTime]).
Proof.
  split; vm_compute; [reflexivity | discriminate].
Qed.

(** [C6], amended: on the axis [2024-06-04, 2024-06-10] the target
    2024-06-07 selects the slice of 2024-06-10, the later of the two
    entries at the same distance. *)
Theorem nearest_selects_jun10 {R : Runtime} (s04 s10 : raster)
  (log : list call) :
  sel_time_nearest (mkDataset (Some [jun04; jun10]) [s04; s10]) jun07 log
  = (inr (mkDataArray jun10 s10), (log ++ [SelTime])%list).
Proof.
  unfold sel_time_nearest, bind, tell, lift, ret; cbn [ds_time ds_chlor_a map].
  rewrite nearest_tie_later; [reflexivity | | |];
    unfold Calendar.value, Calendar.ticks_per_day; destruct reso;
    reflexivity || (vm_compute; discriminate).
Qed.

(** ** The definitions on concrete inputs *)

Example search_example :
  Re.search "s3://bucket/PACE_OCI.20240604.L3m.DAY.CHL.V3_0.chlor_a.4km.nc"
  = Some "20240604".
Proof. reflexivity. Qed.

Example to_datetime_example :
  Strptime.to_datetime "20240604" = inr (mkTimestamp 2024 6 4).
Proof. reflexivity. Qed.

Example to_datetime_month13 :
  Strptime.to_datetime "20241301" = inl (StrptimeError "20241301").
Proof. reflexivity. Qed.

Example to_datetime_feb30 :
  Strptime.to_datetime "20240230" = inl (StrptimeError "20240230").
Proof. reflexivity. Qed.

Example to_datetime_first_day :
  Strptime.to_datetime "16770922" = inr Calendar.first_day
  /\ Strptime.to_datetime "16770921" = inl (OutOfBoundsDatetime "16770921")
  /\ Strptime.to_datetime "00000101" = inl (OutOfBoundsDatetime "00000101").
Proof. repeat split; reflexivity. Qed.

Example to_datetime_last_day :
  Strptime.to_datetime "22620411" = inr Calendar.last_day
  /\ Strptime.to_datetime "22620412" = inl (OutOfBoundsDatetime "22620412").
Proof. split; reflexivity. Qed.

(** With pandas 3 the dates outside the nanoseconds are dates. *)
Example to_datetime_pandas3 :
  @Strptime.to_datetime cpython311_pandas3 "16770921"
  = inr (mkTimestamp 1677 9 21)
  /\ @Strptime.to_datetime cpython311_pandas3 "99991231"
     = inr (mkTimestamp 9999 12 31)
  /\ @Strptime.to_datetime cpython311_pandas3 "20240230"
     = inl (StrptimeError "20240230").
Proof. repeat split; reflexivity. Qed.

Example msg_mismatch_example :
  msg_mismatch 0 12 = "Mismatch: found 0 dates for 12 files".
Proof. reflexivity. Qed.

Example decimal_example : decimal 0 = "0" /\ decimal 161 = "161".
Proof. split; reflexivity. Qed.

Example search_takes_leftmost :
  Re.search "PACE_OCI.20240101/PACE_OCI.20240604.nc" = Some "20240101"
  /\ Re.search "PACE_OCI.L3m/PACE_OCI.20240604.nc" = Some "20240604"
  /\ Re.search "PACE_OCI_20240604.nc" = None
  /\ Re.search "PACE_OCI.2024060.nc" = None.
Proof. repeat split. Qed.

(** Digits of another script: [\d] matches the eight full-width digits, in
    front of the ASCII ones, and the parser of dates does not read them. *)
Example search_full_width :
  Re.search "PACE_OCI.２０２４０６０４/PACE_OCI.20240604.nc"
  = Some "２０２４０６０４"
  /\ String.length "２０２４０６０４" = 24%nat
  /\ date_of_path "PACE_OCI.２０２４０６０４/PACE_OCI.20240604.nc"
     = inl (StrptimeError "２０２４０６０４")
  /\ Re.search "PACE_OCI.٢٠٢٤٠٦٠٤.nc" = Some "٢٠٢٤٠٦٠٤"
  /\ Re.search "PACE_OCI.2024０６０４.nc" = Some "2024０６０４"
  /\ Re.search "PACE_OCI.²⁰²⁴⁰⁶⁰⁴.nc" = None.
Proof. repeat split. Qed.

Example nearest_examples :
  Index.get_indexer_nearest [4; 10] 6 = inr 0%nat
  /\ Index.get_indexer_nearest [4; 10] 7 = inr 1%nat
  /\ Index.get_indexer_nearest [10; 4] 7 = inr 0%nat
  /\ Index.get_indexer_nearest [4; 10] 1 = inr 0%nat
  /\ Index.get_indexer_nearest [4; 10] 12 = inr 1%nat
  /\ Index.get_indexer_nearest [4; 10; 7] 7 = inl NotMonotonic
  /\ Index.get_indexer_nearest [4; 4] 7 = inl InvalidIndexError
  /\ Index.get_indexer_nearest [] 7 = inl KeyError.
Proof. repeat split. Qed.

(** A target more than an int64 of nanoseconds from the index: the
    difference overflows with pandas 2 and does not with pandas 3. *)
Example nearest_overflow :
  sel_time_nearest (mkDataset (Some [jun04]) [[Fin (4 # 1)]])
    (mkTimestamp 1700 1 1) []
  = (inl OverflowError, [SelTime])
  /\ @sel_time_nearest cpython311_pandas3
       (mkDataset (Some [jun04]) [[Fin (4 # 1)]]) (mkTimestamp 1700 1 1) []
     = (inr (mkDataArray jun04 [Fin (4 # 1)]), [SelTime]).
Proof. split; reflexivity. Qed.

(** A run of the script on two granules, with the whole raster as region
    and 2024-06-07 as target. *)
Example script_example :
  let f1 := mkHandle "PACE_OCI.20240604.L3m.DAY.CHL.nc"
              [Fin (-1 # 1); Fin (3 # 1)] in
  let f2 := mkHandle "PACE_OCI.20240610.L3m.DAY.CHL.nc"
              [Fin (1 # 1000); Fin (0 # 1)] in
  run (script (fun r => r) jun07 [f1; f2])
  = (inr (mkDataArray jun10 [Fin (1 # 100); NaN]),
     [LoopBody (path f1); LoopBody (path f2);
      OpenMfdataset [path f1; path f2]; AssignCoords; SelRegion; SelTime]).
Proof. reflexivity. Qed.

Example script_no_files :
  run (script (fun r => r) jun07 [])
  = (inl NoFilesToOpen, [OpenMfdataset []]).
Proof. reflexivity. Qed.

(** * Further properties *)

(** ** What a successful extraction says about the path *)

Section ExtractionConverse.

Context {R : Runtime}.

Import Calendar.



(** The exceptions of [to_datetime] are its own two. *)
Lemma to_datetime_exn (ds : string) (e : exn) :
  Strptime.to_datetime ds = inl e ->
  e = StrptimeError ds \/ e = OutOfBoundsDatetime ds.
Proof.
  unfold Strptime.to_datetime.
  destruct (Strptime.fields ds) as [t|];
    [destruct (valid_date t); [destruct (in_bounds t)|]|];
    intros H; inversion H; auto.
Qed.

End ExtractionConverse.



(** [X2]: the loop body raises "Could not extract date from: " and the
    path exactly when nowhere in the path [PACE_OCI.] is followed by eight
    characters that [\d] matches, the decimal digits of every script. *)
Theorem no_date_error_iff {R : Runtime} (p : string) :
  date_of_path p = inl (ValueError (msg_no_date p))
  <-> (forall pre ds post,
         p = (pre ++ Re.token ++ ds ++ post)%string ->
         Re.digits 8 ds = Some ds ->
         False).
Proof.
  rewrite <- search_none; unfold date_of_path.
  destruct (Re.search p) as [g|]; split; trivial; try discriminate.
  intros H; destruct (to_datetime_exn _ _ H); discriminate.
Qed.

Lemma no_date_error_iff_witness :
  date_of_path "README.txt"
  = inl (ValueError "Could not extract date from: README.txt").
Proof.
  apply (proj2 (no_date_error_iff "README.txt")).
  apply (proj1 (search_none "README.txt")).
  reflexivity.
Defined.

(** ** Every way the loop can end *)

(** [X3]: the loop raises [e] after the calls [log] exactly when the
    handles split into some that all give a date, one whose path gives [e],
    and the rest, [log] being one visit for each handle up to that one:
    the exception is always the one of the first handle that fails, and
    what follows it has no part in the outcome. *)
Theorem extraction_raises_iff {R : Runtime} (fileset : list handle) (e : exn)
  (log : list call) :
  run (extract_dates fileset []) = (inl e, log)
  <-> exists pre ts f rest,
        fileset = (pre ++ f :: rest)%list /\ dated pre ts
        /\ date_of_path (path f) = inl e
        /\ log = visits (pre ++ [f])%list.
Proof.
  split.
  - intros H.
    destruct (extract_dates_raises _ _ _ _ _ H)
      as (pre & ts & f & rest & E & Hd & Hf & El).
    exists pre, ts, f, rest; repeat split; trivial.
  - intros (pre & ts & f & rest & -> & Hd & Hf & ->).
    exact (extract_dates_stops pre ts f e rest Hd Hf [] []).
Qed.

Lemma extraction_raises_iff_witness :
  let f1 := mkHandle "PACE_OCI.20240604.L3m.nc" [] in
  let f2 := mkHandle "PACE_OCI.20240230.L3m.nc" [] in
  let f3 := mkHandle "README.txt" [] in
  run (extract_dates [f1; f2; f3] [])
  = (inl (StrptimeError "20240230"), [LoopBody (path f1); LoopBody (path f2)]).
Proof.
  intros f1 f2 f3.
  apply (proj2 (extraction_raises_iff [f1; f2; f3] _ _)).
  exists [f1], [mkTimestamp 2024 6 4], f2, [f3].
  repeat split.
  repeat constructor.
Defined.

(** [X4]: the loop returns [dates] after the calls [log] exactly when every
    handle gives a date, [dates] being these dates in the order of the
    handles and [log] one visit for each handle. *)
Theorem extraction_returns_iff {R : Runtime} (fileset : list handle)
  (dates : list Timestamp) (log : list call) :
  run (extract_dates fileset []) = (inr dates, log)
  <-> dated fileset dates /\ log = visits fileset.
Proof.
  split.
  - intros H.
    destruct (extract_dates_inv _ _ _ _ _ H) as (ts & Hd & E & El).
    simpl in E, El; now subst.
  - intros [Hd ->].
    exact (extract_dates_dated fileset dates Hd [] []).
Qed.

Lemma extraction_returns_iff_witness :
  let f1 := mkHandle "PACE_OCI.20240610.L3m.nc" [] in
  let f2 := mkHandle "x/PACE_OCI.20240604.L3m.nc" [] in
  run (extract_dates [f1; f2] [])
  = (inr [mkTimestamp 2024 6 10; mkTimestamp 2024 6 4],
     [LoopBody (path f1); LoopBody (path f2)]).
Proof.
  intros f1 f2.
  apply (proj2 (extraction_returns_iff [f1; f2] _ _)).
  split; [repeat constructor | reflexivity].
Defined.

(** [X5]: when the loop raises, the script ends with that exception and
    has made no call into xarray: the log holds visits of the loop only,
    and no granule has been opened. *)
Theorem failed_extraction_opens_nothing {R : Runtime}
  (lat_lon_west : raster -> raster)
  (time : Timestamp) (fileset : list handle) (e : exn) (log : list call) :
  run (extract_dates fileset []) = (inl e, log) ->
  run (script lat_lon_west time fileset) = (inl e, log)
  /\ (forall c, In c log -> exists f, In f fileset /\ c = LoopBody (path f)).
Proof.
  intros H; split.
  - unfold run, script, bind in *; now rewrite H.
  - destruct (extract_dates_raises _ _ _ _ _ H)
      as (pre & ts & f & rest & -> & _ & _ & ->).
    intros c Hc; simpl in Hc.
    unfold visits in Hc; apply in_map_iff in Hc as (g & <- & Hg).
    exists g; split; [|reflexivity].
    apply in_app_iff in Hg as [Hg|[<-|[]]]; apply in_app_iff;
      [left | right; left]; trivial.
Qed.

Lemma failed_extraction_opens_nothing_witness :
  let f1 := mkHandle "PACE_OCI.20240604.L3m.nc" [] in
  let f2 := mkHandle "README.txt" [] in
  run (script (fun r => r) jun07 [f1; f2])
  = (inl (ValueError "Could not extract date from: README.txt"),
     [LoopBody (path f1); LoopBody (path f2)]).
Proof.
  intros f1 f2.
  apply (failed_extraction_opens_nothing (fun r => r) jun07 [f1; f2]).
  reflexivity.
Defined.

(** ** What the cleaning leaves in the array *)

Section CleaningRange.

Local Open Scope list_scope.

Lemma Qle_bool_total (a b : Q) : Qle_bool a b = false -> Qle_bool b a = true.
Proof.
  intros H; apply Qle_bool_iff, Qlt_le_weak; now apply Qle_bool_false.
Qed.

Lemma Qle_bool_trans (a b c : Q) :
  Qle_bool a b = true -> Qle_bool b c = true -> Qle_bool a c = true.
Proof.
  rewrite !Qle_bool_iff; apply Qle_trans.
Qed.

(** On a rational the cleaning has three cases. *)
Lemma clean_1_fin (q : Q) :
  (Qle_bool q (0 # 1) = true /\ clean_1 (Fin q) = NaN)
  \/ (Qle_bool q (0 # 1) = false /\ Qle_bool (1 # 100) q = false
      /\ clean_1 (Fin q) = Fin (1 # 100))
  \/ (Qle_bool q (0 # 1) = false /\ Qle_bool (1 # 100) q = true
      /\ clean_1 (Fin q) = Fin q).
Proof.
  unfold clean_1, where_positive_1, clip_min_1; simpl.
  destruct (Qle_bool q (0 # 1)) eqn:H0; simpl; [now left|right].
  destruct (Qle_bool (1 # 100) q) eqn:H1; simpl; [right|left]; auto.
Qed.

Lemma clean_1_range (x : float) :
  clean_1 x = NaN \/ Float.leb Float.floor_value (clean_1 x) = true.
Proof.
  destruct x as [| | |q]; try (now left); try (now right).
  destruct (clean_1_fin q) as [[_ ->]|[(_ & _ & ->)|(_ & H & ->)]];
    [now left | now right | now right].
Qed.

Lemma clean_1_missing_iff (x : float) :
  clean_1 x = NaN <-> x = NaN \/ Float.leb x Float.zero = true.
Proof.
  destruct x as [| | |q].
  - split; auto.
  - split; auto.
  - split; [discriminate | intros [?|?]; discriminate].
  - simpl.
    destruct (clean_1_fin q) as [[H ->]|[(H & _ & ->)|(H & _ & ->)]];
      rewrite H; split; auto; try discriminate;
      intros [?|?]; discriminate.
Qed.

Lemma clean_1_monotone (x y : float) :
  Float.leb x y = true -> clean_1 x <> NaN ->
  Float.leb (clean_1 x) (clean_1 y) = true.
Proof.
  destruct x as [| | |q]; destruct y as [| | |r]; simpl;
    try discriminate; try (intros _ H; now elim H).
  - intros _ _; reflexivity.
  - intros _ Hx.
    destruct (clean_1_fin q) as [[_ E]|[(_ & _ & ->)|(_ & _ & ->)]];
      [now elim Hx | reflexivity | reflexivity].
  - intros Hqr Hx.
    destruct (clean_1_fin q) as [[_ E]|[(Hq0 & Hq1 & ->)|(Hq0 & Hq1 & ->)]];
      [now elim Hx | |].
    + destruct (clean_1_fin r) as [[Hr0 _]|[(_ & _ & ->)|(_ & Hr1 & ->)]];
        [|reflexivity | exact Hr1].
      pose proof (Qle_bool_trans _ _ _ Hqr Hr0); congruence.
    + destruct (clean_1_fin r) as [[Hr0 _]|[(_ & Hr1 & _)|(_ & _ & ->)]];
        [| | exact Hqr].
      * pose proof (Qle_bool_trans _ _ _ Hqr Hr0); congruence.
      * pose proof (Qle_bool_trans _ _ _ Hq1 Hqr); congruence.
Qed.

End CleaningRange.

(** [X6]: every entry of a cleaned array is missing or at least 0.01;
    nothing zero, negative or below the floor is left for the logarithmic
    scale. *)
Theorem cleaning_range (a : raster) (x : float) :
  In x (cleaning a) ->
  x = NaN \/ Float.leb Float.floor_value x = true.
Proof.
  rewrite cleaning_map; intros H.
  apply in_map_iff in H as (y & <- & _).
  apply clean_1_range.
Qed.

Lemma cleaning_range_witness :
  Fin (1 # 100) = NaN
  \/ Float.leb Float.floor_value (Fin (1 # 100)) = true.
Proof.
  apply (cleaning_range [Fin (-2 # 1); Fin (1 # 1000)] (Fin (1 # 100))).
  right; left; reflexivity.
Defined.

(** [X7]: an entry is missing after the cleaning exactly when it was
    missing before or at most 0. *)
Theorem cleaning_missing_iff (a : raster) (i : nat) (x : float) :
  nth_error a i = Some x ->
  (nth_error (cleaning a) i = Some NaN
   <-> x = NaN \/ Float.leb x Float.zero = true).
Proof.
  intros Hi.
  rewrite cleaning_map, nth_error_map, Hi; cbn [option_map].
  rewrite <- clean_1_missing_iff.
  split; [intros H; now inversion H | intros ->; reflexivity].
Qed.

Lemma cleaning_missing_iff_witness :
  nth_error (cleaning [Fin (3 # 1); NegInf]) 1 = Some NaN.
Proof.
  apply (proj2 (cleaning_missing_iff [Fin (3 # 1); NegInf] 1 NegInf eq_refl)).
  right; reflexivity.
Defined.

(** [X8]: the cleaning keeps the order of the entries it leaves defined:
    if the entry at [i] is at most the entry at [j] and is not missing
    after the cleaning, the cleaned entry at [j] is not missing either and
    is at least the cleaned entry at [i]. *)
Theorem cleaning_monotone (a : raster) (i j : nat) (x y x' : float) :
  nth_error a i = Some x -> nth_error a j = Some y ->
  Float.leb x y = true ->
  nth_error (cleaning a) i = Some x' -> x' <> NaN ->
  exists y', nth_error (cleaning a) j = Some y'
             /\ y' <> NaN /\ Float.leb x' y' = true.
Proof.
  intros Hi Hj Hxy.
  rewrite cleaning_map, !nth_error_map, Hi, Hj; cbn [option_map].
  intros E Hx'; inversion E; subst x'.
  exists (clean_1 y); split; [reflexivity|].
  pose proof (clean_1_monotone x y Hxy Hx') as Hm.
  split; [|exact Hm].
  intros Hy; rewrite Hy in Hm.
  destruct (clean_1 x); discriminate.
Qed.

Lemma cleaning_monotone_witness :
  exists y',
    nth_error (cleaning [Fin (1 # 1000); Fin (2 # 1)]) 1 = Some y'
    /\ y' <> NaN /\ Float.leb (Fin (1 # 100)) y' = true.
Proof.
  apply (cleaning_monotone [Fin (1 # 1000); Fin (2 # 1)] 0 1
           (Fin (1 # 1000)) (Fin (2 # 1)) (Fin (1 # 100)));
    try reflexivity.
  discriminate.
Defined.


(** ** The nearest entry of the time index *)

Section NearestFacts.

Local Open Scope list_scope.

Import Index.

Lemma first_from_Some (p : Z -> bool) (l : list Z) :
  forall i j, first_from i p l = Some j ->
  exists l1 a l2,
    l = l1 ++ a :: l2 /\ j = (i + length l1)%nat /\ p a = true
    /\ Forall (fun b => p b = false) l1.
Proof.
  induction l as [|c l IH]; intros i j H; simpl in H; [discriminate|].
  destruct (p c) eqn:Hc.
  - inversion H; subst j.
    exists [], c, l.
    split; [reflexivity|]. split; [simpl; lia|]. split; [exact Hc|].
    constructor.
  - destruct (IH _ _ H) as (l1 & a & l2 & -> & -> & Ha & Hl1).
    exists (c :: l1), a, l2.
    split; [reflexivity|]. split; [simpl; lia|]. split; [exact Ha|].
    now constructor.
Qed.

Lemma first_from_None (p : Z -> bool) (l : list Z) :
  forall i, first_from i p l = None -> Forall (fun b => p b = false) l.
Proof.
  induction l as [|c l IH]; intros i H; simpl in H; [constructor|].
  destruct (p c) eqn:Hc; [discriminate|].
  constructor; [exact Hc | exact (IH _ H)].
Qed.

Lemma last_from_None (p : Z -> bool) (l : list Z) :
  forall i, last_from i p l = None -> Forall (fun b => p b = false) l.
Proof.
  induction l as [|c l IH]; intros i H; simpl in H; [constructor|].
  destruct (last_from (S i) p l) eqn:E; [discriminate|].
  destruct (p c) eqn:Hc; [discriminate|].
  constructor; [exact Hc | exact (IH _ E)].
Qed.

Lemma last_from_Some (p : Z -> bool) (l : list Z) :
  forall i j, last_from i p l = Some j ->
  exists l1 a l2,
    l = l1 ++ a :: l2 /\ j = (i + length l1)%nat /\ p a = true
    /\ Forall (fun b => p b = false) l2.
Proof.
  induction l as [|c l IH]; intros i j H; simpl in H; [discriminate|].
  destruct (last_from (S i) p l) as [k|] eqn:Hl.
  - inversion H; subst k.
    destruct (IH _ _ Hl) as (l1 & a & l2 & -> & -> & Ha & Hl2).
    exists (c :: l1), a, l2.
    split; [reflexivity|]. split; [simpl; lia|]. now split.
  - destruct (p c) eqn:Hc; [|discriminate].
    inversion H; subst j.
    exists [], c, l.
    split; [reflexivity|]. split; [simpl; lia|]. split; [exact Hc|].
    exact (last_from_None _ _ _ Hl).
Qed.

Lemma increasing_cons (a : Z) (l : list Z) :
  is_monotonic_increasing (a :: l) = true ->
  Forall (fun b => a <= b) l /\ is_monotonic_increasing l = true.
Proof.
  revert a; induction l as [|b l IH]; intros a H.
  - split; [constructor | reflexivity].
  - cbn [is_monotonic_increasing] in H.
    apply andb_prop in H as [Hab Hl].
    apply Z.leb_le in Hab.
    destruct (IH _ Hl) as [Hb _].
    split; [|exact Hl].
    constructor; [exact Hab|].
    eapply Forall_impl; [|exact Hb]; cbv beta; intros; lia.
Qed.

Lemma increasing_split (l1 : list Z) (a : Z) (l2 : list Z) :
  is_monotonic_increasing (l1 ++ a :: l2) = true ->
  Forall (fun b => b <= a) l1 /\ Forall (fun b => a <= b) l2.
Proof.
  induction l1 as [|c l1 IH]; intros H.
  - split; [constructor | exact (proj1 (increasing_cons _ _ H))].
  - change ((c :: l1) ++ a :: l2) with (c :: (l1 ++ a :: l2)) in H.
    destruct (increasing_cons _ _ H) as [Hc Hl].
    destruct (IH Hl) as [H1 H2].
    split; [|exact H2].
    constructor; [|exact H1].
    rewrite Forall_forall in Hc; apply Hc.
    apply in_app_iff; right; now left.
Qed.

Lemma unique_cons (a : Z) (l : list Z) :
  is_unique (a :: l) = true -> ~ In a l /\ is_unique l = true.
Proof.
  cbn [is_unique]; intros H.
  apply andb_prop in H as [Ha Hl].
  split; [|exact Hl].
  intros Hin.
  apply negb_true_iff in Ha.
  assert (existsb (Z.eqb a) l = true)
    by (apply existsb_exists; exists a; split; [exact Hin | apply Z.eqb_refl]).
  congruence.
Qed.

Lemma unique_NoDup (l : list Z) : is_unique l = true <-> NoDup l.
Proof.
  induction l as [|a l IH].
  - split; [constructor | reflexivity].
  - split.
    + intros H; destruct (unique_cons _ _ H) as [Ha Hl].
      constructor; [exact Ha | now apply IH].
    + intros H; inversion H as [|? ? Ha Hl]; subst.
      cbn [is_unique]; apply andb_true_intro; split; [|now apply IH].
      apply negb_true_iff.
      destruct (existsb (Z.eqb a) l) eqn:E; [|reflexivity].
      apply existsb_exists in E as (b & Hb & Hab).
      apply Z.eqb_eq in Hab; subst b; contradiction.
Qed.

(** In a list of two entries or more without repetition the last entry is
    not the first. *)
Lemma last_not_first (a b : Z) (l : list Z) :
  is_unique (a :: b :: l) = true -> last (a :: b :: l) 0 <> a.
Proof.
  intros H; destruct (unique_cons _ _ H) as [Ha _].
  change (last (a :: b :: l) 0) with (last (b :: l) 0).
  intros E; apply Ha; rewrite <- E.
  clear; revert b; induction l as [|c l IH]; intros b.
  - now left.
  - change (last (b :: c :: l) 0) with (last (c :: l) 0).
    right; apply IH.
Qed.

Lemma last_In (a : Z) (l : list Z) : In (last (a :: l) 0) (a :: l).
Proof.
  revert a; induction l as [|c l IH]; intros a.
  - now left.
  - change (last (a :: c :: l) 0) with (last (c :: l) 0).
    right; apply IH.
Qed.

Lemma pad_Some (l : list Z) (t : Z) (i : nat) :
  is_monotonic_increasing l = true ->
  last_from 0 (fun a => a <=? t) l = Some i ->
  exists a, nth_error l i = Some a /\ nth i l 0 = a /\ In a l /\ a <= t
            /\ (forall b, In b l -> b <= t -> b <= a).
Proof.
  intros Hs H.
  destruct (last_from_Some _ _ _ _ H) as (l1 & a & l2 & -> & -> & Ha & Hl2).
  destruct (increasing_split _ _ _ Hs) as [H1 _].
  apply Z.leb_le in Ha.
  exists a; cbn [Nat.add].
  split; [now rewrite nth_error_app2, Nat.sub_diag by lia|].
  split; [apply nth_middle|].
  split; [apply in_app_iff; right; now left|].
  split; [exact Ha|].
  intros b Hb Hbt.
  rewrite Forall_forall in H1, Hl2.
  apply in_app_iff in Hb as [Hb|[<-|Hb]]; [now apply H1 | lia |].
  specialize (Hl2 _ Hb); apply Z.leb_gt in Hl2; lia.
Qed.

Lemma pad_None (l : list Z) (t : Z) :
  last_from 0 (fun a => a <=? t) l = None -> forall b, In b l -> t < b.
Proof.
  intros H b Hb.
  pose proof (last_from_None _ _ _ H) as Hl.
  rewrite Forall_forall in Hl.
  specialize (Hl _ Hb); now apply Z.leb_gt in Hl.
Qed.

Lemma backfill_Some (l : list Z) (t : Z) (j : nat) :
  is_monotonic_increasing l = true ->
  first_from 0 (fun a => t <=? a) l = Some j ->
  exists c, nth_error l j = Some c /\ nth j l 0 = c /\ In c l /\ t <= c
            /\ (forall b, In b l -> t <= b -> c <= b).
Proof.
  intros Hs H.
  destruct (first_from_Some _ _ _ _ H) as (l1 & c & l2 & -> & -> & Hc & Hl1).
  destruct (increasing_split _ _ _ Hs) as [_ H2].
  apply Z.leb_le in Hc.
  exists c; cbn [Nat.add].
  split; [now rewrite nth_error_app2, Nat.sub_diag by lia|].
  split; [apply nth_middle|].
  split; [apply in_app_iff; right; now left|].
  split; [exact Hc|].
  intros b Hb Hbt.
  rewrite Forall_forall in H2, Hl1.
  apply in_app_iff in Hb as [Hb|[<-|Hb]]; [| lia | now apply H2].
  specialize (Hl1 _ Hb); apply Z.leb_gt in Hl1; lia.
Qed.

Lemma backfill_None (l : list Z) (t : Z) :
  first_from 0 (fun a => t <=? a) l = None -> forall b, In b l -> b < t.
Proof.
  intros H b Hb.
  pose proof (first_from_None _ _ _ H) as Hl.
  rewrite Forall_forall in Hl.
  specialize (Hl _ Hb); now apply Z.leb_gt in Hl.
Qed.

(** On an increasing index without repetition the choice is an entry at
    the least distance from the label; among the entries at that distance
    it is the larger one when the comparison is strict and the smaller one
    when it is not. *)
Lemma nearest_core_spec (strict : bool) (l : list Z) (t : Z) :
  l <> [] -> is_monotonic_increasing l = true -> is_unique l = true ->
  (strict = false -> (2 <= length l)%nat) ->
  exists i a,
    nearest_core strict l t = Some i /\ nth_error l i = Some a
    /\ (forall b, In b l -> Z.abs (t - a) <= Z.abs (t - b))
    /\ (forall b, In b l -> Z.abs (t - b) = Z.abs (t - a) ->
        if strict then b <= a else a <= b).
Proof.
  intros Hne Hs Hu Hlen.
  unfold nearest_core, gap, take.
  destruct (last_from 0 (fun a => a <=? t) l) as [i|] eqn:HL;
    destruct (first_from 0 (fun a => t <=? a) l) as [j|] eqn:HR.
  - destruct (pad_Some _ _ _ Hs HL) as (a & Hia & -> & Hal & Hat & P1).
    destruct (backfill_Some _ _ _ Hs HR) as (c & Hjc & -> & Hcl & Htc & P2).
    rewrite orb_false_r.
    destruct strict.
    + destruct (Z.abs (t - a) <? Z.abs (t - c)) eqn:E;
        [apply Z.ltb_lt in E; exists i, a | apply Z.ltb_ge in E; exists j, c];
        (split; [reflexivity|]; split; [assumption|]);
        split; intros b Hb;
        specialize (P1 b Hb); specialize (P2 b Hb); lia.
    + destruct (Z.abs (t - a) <=? Z.abs (t - c)) eqn:E;
        [apply Z.leb_le in E; exists i, a | apply Z.leb_gt in E; exists j, c];
        (split; [reflexivity|]; split; [assumption|]);
        split; intros b Hb;
        specialize (P1 b Hb); specialize (P2 b Hb); lia.
  - destruct (pad_Some _ _ _ Hs HL) as (a & Hia & -> & Hal & Hat & P1).
    pose proof (backfill_None _ _ HR) as P2.
    rewrite orb_true_r.
    exists i, a; split; [reflexivity|]; split; [assumption|].
    split; intros b Hb; specialize (P1 b Hb); specialize (P2 b Hb);
      destruct strict; lia.
  - pose proof (pad_None _ _ HL) as P1.
    destruct (backfill_Some _ _ _ Hs HR) as (c & Hjc & -> & Hcl & Htc & P2).
    rewrite orb_false_r.
    destruct l as [|x l']; [contradiction|].
    pose proof (last_In x l') as Hlast.
    pose proof (P1 _ Hlast) as Hl1.
    pose proof (P2 _ Hlast) as Hl2.
    pose proof (P1 _ Hcl) as Hc1.
    assert (Hchoice :
              (if strict then Z.ltb else Z.leb)
                (Z.abs (t - last (x :: l') 0)) (Z.abs (t - c)) = false).
    { destruct strict; [apply Z.ltb_ge; lia|].
      apply Z.leb_gt.
      destruct l' as [|y l'']; [specialize (Hlen eq_refl); simpl in Hlen; lia|].
      pose proof (last_not_first _ _ _ Hu) as Hnf.
      destruct (increasing_cons _ _ Hs) as [Hx _].
      rewrite Forall_forall in Hx.
      assert (x <= c) by (destruct Hcl as [<-|Hc]; [lia | now apply Hx]).
      assert (c <= x) by (apply P2; [now left | apply Z.lt_le_incl, P1; now left]).
      lia. }
    rewrite Hchoice.
    exists j, c; split; [reflexivity|]; split; [assumption|].
    split; intros b Hb; specialize (P1 b Hb); specialize (P2 b Hb);
      destruct strict; lia.
  - exfalso.
    destruct l as [|x l']; [contradiction|].
    pose proof (pad_None _ _ HL x (or_introl eq_refl)).
    pose proof (backfill_None _ _ HR x (or_introl eq_refl)).
    lia.
Qed.

Lemma nearest_increasing (l : list Z) (t : Z) :
  l <> [] -> is_monotonic_increasing l = true ->
  nearest_choice l t = nearest_core true l t.
Proof.
  intros Hne Hs; destruct l as [|x l']; [contradiction|].
  unfold nearest_choice, nearest_core, pad, backfill; now rewrite Hs.
Qed.

Lemma leb_opp (a b : Z) : (- a <=? - b) = (b <=? a).
Proof.
  destruct (Z.leb_spec (- a) (- b)), (Z.leb_spec b a); trivial; lia.
Qed.

Lemma last_from_opp (t : Z) (l : list Z) :
  forall i,
    last_from i (fun a => t <=? a) l
    = last_from i (fun a => a <=? - t) (map Z.opp l).
Proof.
  induction l as [|c l IH]; intros i; simpl; [reflexivity|].
  now rewrite IH, leb_opp.
Qed.

Lemma first_from_opp (t : Z) (l : list Z) :
  forall i,
    first_from i (fun a => a <=? t) l
    = first_from i (fun a => - t <=? a) (map Z.opp l).
Proof.
  induction l as [|c l IH]; intros i; simpl; [reflexivity|].
  now rewrite IH, leb_opp.
Qed.

Lemma take_opp (l : list Z) (i : option nat) :
  take (map Z.opp l) i = - take l i.
Proof.
  destruct i as [n|]; simpl.
  - exact (map_nth Z.opp l 0 n).
  - induction l as [|c l IH]; [reflexivity|].
    destruct l as [|d l]; [reflexivity|].
    exact IH.
Qed.

Lemma gap_opp (l : list Z) (t : Z) (i : option nat) :
  gap (map Z.opp l) (- t) i = gap l t i.
Proof. unfold gap; rewrite take_opp; lia. Qed.

Lemma nearest_decreasing (l : list Z) (t : Z) :
  l <> [] -> is_monotonic_increasing l = false ->
  nearest_choice l t = nearest_core false (map Z.opp l) (- t).
Proof.
  intros Hne Hs; destruct l as [|x l']; [contradiction|].
  unfold nearest_choice, nearest_core, pad, backfill; rewrite Hs.
  now rewrite <- last_from_opp, <- first_from_opp, !gap_opp.
Qed.

(** A distance that is taken is the gap. *)
Lemma distance_inr (l : list Z) (t : Z) (i : option nat) (d : Z) :
  distance l t i = inr d -> d = gap l t i.
Proof.
  unfold distance, sub_overflowsafe, gap.
  destruct (_ && _); intros H; inversion H; lia.
Qed.

Lemma distance_fit (l : list Z) (t : Z) (i : option nat) :
  - 2 ^ 63 < take l i - t <= 2 ^ 63 - 1 ->
  distance l t i = inr (gap l t i).
Proof.
  intros [Hlo Hhi]; unfold distance, sub_overflowsafe, gap.
  apply Z.ltb_lt in Hlo; apply Z.leb_le in Hhi.
  rewrite Hlo, Hhi; cbn [andb]; f_equal; lia.
Qed.

(** When the lookup gives a position, it is the one of the choice. *)
Lemma nearest_inr (l : list Z) (t : Z) (r : option nat) :
  nearest l t = inr r -> r = nearest_choice l t.
Proof.
  unfold nearest, nearest_choice.
  destruct l as [|x l']; [intros H; now inversion H|].
  destruct (distance (x :: l') t (pad (x :: l') t)) as [e|dl] eqn:H1;
    [discriminate|].
  destruct (distance (x :: l') t (backfill (x :: l') t)) as [e|dr] eqn:H2;
    [discriminate|].
  apply distance_inr in H1, H2; subst dl dr.
  intros H; now inversion H.
Qed.

(** The entries whose distance is taken are entries of the index. *)
Lemma take_In (l : list Z) (t : Z) :
  l <> [] -> In (take l (pad l t)) l /\ In (take l (backfill l t)) l.
Proof.
  intros Hne.
  assert (Hlast : In (last l 0) l)
    by (destruct l; [contradiction | apply last_In]).
  unfold pad, backfill, take.
  split.
  - destruct (is_monotonic_increasing l);
      match goal with
      | |- In match ?x with _ => _ end _ => destruct x as [i|] eqn:H
      end; trivial;
      destruct (last_from_Some _ _ _ _ H) as (l1 & a & l2 & -> & -> & _);
      cbn [Nat.add]; rewrite nth_middle; apply in_app_iff; right; now left.
  - destruct (is_monotonic_increasing l);
      match goal with
      | |- In match ?x with _ => _ end _ => destruct x as [i|] eqn:H
      end; trivial;
      destruct (first_from_Some _ _ _ _ H) as (l1 & a & l2 & -> & -> & _);
      cbn [Nat.add]; rewrite nth_middle; apply in_app_iff; right; now left.
Qed.

(** When every entry is within an int64 of the label, the lookup gives the
    position of the choice. *)
Lemma nearest_fit (l : list Z) (t : Z) :
  (forall a, In a l -> - 2 ^ 63 < a - t <= 2 ^ 63 - 1) ->
  nearest l t = inr (nearest_choice l t).
Proof.
  intros Hfit; unfold nearest, nearest_choice.
  destruct l as [|x l']; [reflexivity|].
  destruct (take_In (x :: l') t) as [Hl Hr]; [discriminate|].
  now rewrite !distance_fit by (now apply Hfit).
Qed.

Lemma decreasing_opp_cons (l : list Z) :
  forall a,
    is_monotonic_increasing (- a :: map Z.opp l)
    = is_monotonic_decreasing (a :: l).
Proof.
  induction l as [|b l IH]; intros a; [reflexivity|].
  cbn [map is_monotonic_increasing is_monotonic_decreasing].
  rewrite leb_opp; f_equal; apply IH.
Qed.

Lemma decreasing_opp (l : list Z) :
  is_monotonic_increasing (map Z.opp l) = is_monotonic_decreasing l.
Proof.
  destruct l as [|a l]; [reflexivity | apply decreasing_opp_cons].
Qed.

Lemma eqb_opp (a b : Z) : (- a =? - b) = (a =? b).
Proof.
  destruct (Z.eqb_spec (- a) (- b)), (Z.eqb_spec a b); trivial; lia.
Qed.

Lemma unique_opp (l : list Z) : is_unique (map Z.opp l) = is_unique l.
Proof.
  induction l as [|a l IH]; [reflexivity|].
  cbn [map is_unique]; rewrite IH; f_equal; f_equal.
  clear; induction l as [|b l IH]; [reflexivity|].
  cbn [map existsb]; now rewrite IH, eqb_opp.
Qed.

Lemma not_increasing_long (l : list Z) :
  is_monotonic_increasing l = false -> (2 <= length l)%nat.
Proof.
  destruct l as [|a [|b l]]; simpl; try discriminate; intros; lia.
Qed.

(** The position [get_indexer] returns holds an entry at the least distance
    from the label, the larger one if two entries are at that distance. *)
Lemma get_indexer_nearest_spec (l : list Z) (t : Z) (i : nat) :
  get_indexer_nearest l t = inr i ->
  exists a,
    nth_error l i = Some a
    /\ (forall b, In b l -> Z.abs (t - a) <= Z.abs (t - b))
    /\ (forall b, In b l -> Z.abs (t - b) = Z.abs (t - a) -> b <= a).
Proof.
  unfold get_indexer_nearest.
  destruct (is_unique l) eqn:Hu; [|discriminate].
  destruct (is_monotonic_increasing l) eqn:Hs; cbn [negb orb].
  - destruct l as [|x l']; [discriminate|].
    destruct (nearest (x :: l') t) as [e|r] eqn:Hn; [discriminate|].
    apply nearest_inr in Hn; subst r.
    rewrite nearest_increasing by (trivial; discriminate).
    destruct (nearest_core_spec true (x :: l') t) as (k & a & -> & Hk & Hmin & Htie);
      trivial; try discriminate.
    intros E; inversion E; subst k.
    exists a; auto.
  - destruct (is_monotonic_decreasing l) eqn:Hd; [|discriminate].
    cbn [negb].
    destruct l as [|x l']; [discriminate|].
    destruct (nearest (x :: l') t) as [e|r] eqn:Hn; [discriminate|].
    apply nearest_inr in Hn; subst r.
    rewrite nearest_decreasing by (trivial; discriminate).
    destruct (nearest_core_spec false (map Z.opp (x :: l')) (- t))
      as (k & a' & -> & Hk & Hmin & Htie).
    + discriminate.
    + now rewrite decreasing_opp.
    + now rewrite unique_opp.
    + intros _; rewrite length_map; now apply not_increasing_long.
    + intros E; inversion E; subst k.
      rewrite nth_error_map in Hk.
      destruct (nth_error (x :: l') i) as [a|]; [|discriminate].
      inversion Hk; subst a'.
      exists a; split; [reflexivity|].
      split; intros b Hb.
      * specialize (Hmin (- b) (in_map Z.opp _ _ Hb)); lia.
      * specialize (Htie (- b) (in_map Z.opp _ _ Hb)); lia.
Qed.

(** [get_indexer] finds a position only on an index that has an entry, no
    repetition, and runs upwards or downwards. *)
Lemma get_indexer_nearest_inv (l : list Z) (t : Z) (i : nat) :
  get_indexer_nearest l t = inr i ->
  l <> [] /\ is_unique l = true
  /\ (is_monotonic_increasing l = true
      \/ is_monotonic_decreasing l = true).
Proof.
  unfold get_indexer_nearest; intros H.
  destruct (is_unique l); [|discriminate].
  destruct (is_monotonic_increasing l) eqn:Hs;
    destruct (is_monotonic_decreasing l) eqn:Hd; try discriminate;
    (split; [intros ->; discriminate | split; auto]).
Qed.

(** On such an index it finds one when every entry is within an int64 of
    the label. *)
Lemma get_indexer_nearest_fit (l : list Z) (t : Z) :
  l <> [] -> is_unique l = true ->
  is_monotonic_increasing l = true \/ is_monotonic_decreasing l = true ->
  (forall a, In a l -> - 2 ^ 63 < a - t <= 2 ^ 63 - 1) ->
  exists i, get_indexer_nearest l t = inr i.
Proof.
  intros Hne Hu Hm Hfit; unfold get_indexer_nearest.
  rewrite Hu, (nearest_fit _ _ Hfit); cbn [negb].
  destruct (is_monotonic_increasing l) eqn:Hs; cbn [orb negb].
  - rewrite nearest_increasing by trivial.
    destruct (nearest_core_spec true l t) as (k & a & -> & _);
      trivial; try discriminate.
    now exists k.
  - destruct Hm as [Hm|Hd]; [discriminate|]; rewrite Hd; cbn [negb].
    rewrite nearest_decreasing by trivial.
    destruct (nearest_core_spec false (map Z.opp l) (- t))
      as (k & a & -> & _).
    + destruct l; [contradiction | discriminate].
    + now rewrite decreasing_opp.
    + now rewrite unique_opp.
    + intros _; rewrite length_map; now apply not_increasing_long.
    + now exists k.
Qed.

End NearestFacts.

(** ** The selected slice and the outcome of the script *)

Section Outcome.

Context {R : Runtime}.

Local Open Scope list_scope.

Variable lat_lon_west : raster -> raster.
Variable time : Timestamp.

Lemma dated_nth (fs : list handle) (ts : list Timestamp) :
  dated fs ts ->
  forall i d, nth_error ts i = Some d ->
  exists f, nth_error fs i = Some f /\ date_of_path (path f) = inr d.
Proof.
  induction 1 as [|f t fs ts Hft _ IH]; intros [|i] d Hi; simpl in Hi;
    try discriminate.
  - inversion Hi; subst; now exists f.
  - exact (IH _ _ Hi).
Qed.

(** The lookup of [sel_time_nearest], on Timestamps. *)
Lemma nearest_date (times : list Timestamp) (target : Timestamp) (i : nat) :
  Index.get_indexer_nearest (map Calendar.value times) (Calendar.value target)
  = inr i ->
  exists d,
    nth_error times i = Some d
    /\ (forall d', In d' times ->
          Z.abs (Calendar.value target - Calendar.value d)
          <= Z.abs (Calendar.value target - Calendar.value d'))
    /\ (forall d', In d' times ->
          Z.abs (Calendar.value target - Calendar.value d')
          = Z.abs (Calendar.value target - Calendar.value d) ->
          Calendar.value d' <= Calendar.value d).
Proof.
  intros H.
  destruct (get_indexer_nearest_spec _ _ _ H) as (a & Hi & Hmin & Htie).
  rewrite nth_error_map in Hi.
  destruct (nth_error times i) as [d|]; [|discriminate].
  inversion Hi; subst a.
  exists d; split; [reflexivity|].
  split; intros d' Hd'; [apply Hmin | apply Htie];
    now apply in_map.
Qed.

(** After a loop that gave [dates], on one handle at least, the script is
    at the selection, with the dataset of all granules under [dates]. *)
Lemma script_dated (fileset : list handle) (dates : list Timestamp) :
  fileset <> [] -> dated fileset dates ->
  run (script lat_lon_west time fileset)
  = select_and_clean lat_lon_west time
      (mkDataset (Some dates) (map chlor_a fileset))
      (visits fileset ++ [OpenMfdataset (map path fileset); AssignCoords]).
Proof.
  intros Hne Hd.
  unfold run, script, bind.
  rewrite (extract_dates_dated _ _ Hd [] []); cbn [app].
  unfold after_loop, bind.
  now rewrite (assemble_equal _ _ _ (dated_length _ _ Hd) Hne).
Qed.

(** The selection on that dataset, by the outcome of the lookup. *)
Lemma select_and_clean_lookup (times : list Timestamp) (rs : list raster)
  (log : list call) :
  select_and_clean lat_lon_west time (mkDataset (Some times) rs) log
  = match Index.get_indexer_nearest (map Calendar.value times)
            (Calendar.value time) with
    | inl e => (inl e, log ++ [SelRegion; SelTime])
    | inr i =>
        (inr (mkDataArray (nth i times time)
                (cleaning (nth i (map lat_lon_west rs) []))),
         log ++ [SelRegion; SelTime])
    end.
Proof.
  unfold select_and_clean, sel_lat_lon, sel_time_nearest, bind, tell, ret,
    lift; cbn [ds_time ds_chlor_a da_time da_values].
  rewrite <- app_assoc; cbn [app].
  now destruct (Index.get_indexer_nearest _ _).
Qed.

Lemma nth_region (fs : list handle) (i : nat) (f : handle) :
  nth_error fs i = Some f ->
  nth i (map lat_lon_west (map chlor_a fs)) [] = lat_lon_west (chlor_a f).
Proof.
  intros H; apply nth_error_nth.
  now rewrite !nth_error_map, H.
Qed.

End Outcome.

(** [X9]: the slice that the nearest-time selection returns is labelled
    with an entry of the time coordinate, at the position its values come
    from; no entry is closer to the target, and an entry as close is not
    later. *)
Theorem selection_is_nearest {R : Runtime} (CHL : Dataset) (target : Timestamp)
  (log log' : list call) (da : DataArray) :
  sel_time_nearest CHL target log = (inr da, log') ->
  exists times i,
    ds_time CHL = Some times
    /\ nth_error times i = Some (da_time da)
    /\ da_values da = nth i (ds_chlor_a CHL) []
    /\ (forall d, In d times ->
          Z.abs (Calendar.value target - Calendar.value (da_time da))
          <= Z.abs (Calendar.value target - Calendar.value d))
    /\ (forall d, In d times ->
          Z.abs (Calendar.value target - Calendar.value d)
          = Z.abs (Calendar.value target - Calendar.value (da_time da)) ->
          Calendar.value d <= Calendar.value (da_time da)).
Proof.
  unfold sel_time_nearest, bind, tell, lift, ret, raise.
  destruct (ds_time CHL) as [times|]; [|discriminate].
  destruct (Index.get_indexer_nearest _ _) as [e|i] eqn:Hi; [discriminate|].
  intros H; inversion H; subst da log'; cbn [da_time da_values].
  destruct (nearest_date _ _ _ Hi) as (d & Hd & Hmin & Htie).
  rewrite (nth_error_nth _ _ target Hd).
  exists times, i; repeat split; trivial.
Qed.

Lemma selection_is_nearest_witness :
  exists times i,
    Some [jun04; jun10] = Some times
    /\ nth_error times i = Some jun04
    /\ [Fin (4 # 1)] = nth i [[Fin (4 # 1)]; [Fin (10 # 1)]] []
    /\ (forall d, In d times ->
          Z.abs (Calendar.value (mkTimestamp 2024 6 6) - Calendar.value jun04)
          <= Z.abs (Calendar.value (mkTimestamp 2024 6 6) - Calendar.value d))
    /\ (forall d, In d times ->
          Z.abs (Calendar.value (mkTimestamp 2024 6 6) - Calendar.value d)
          = Z.abs (Calendar.value (mkTimestamp 2024 6 6)
                   - Calendar.value jun04) ->
          Calendar.value d <= Calendar.value jun04).
Proof.
  apply (selection_is_nearest
           (mkDataset (Some [jun04; jun10]) [[Fin (4 # 1)]; [Fin (10 # 1)]])
           (mkTimestamp 2024 6 6) [] [SelTime]
           (mkDataArray jun04 [Fin (4 # 1)])).
  reflexivity.
Defined.

(** [X10]: the nearest-time selection returns a slice only when the
    dataset has a time coordinate with an entry at least, no two entries at
    the same time, and entries that run upwards or run downwards; on such a
    coordinate of Timestamps it does return a slice for a target Timestamp
    when no entry is further from the target than an int64 of ticks. *)
Theorem selection_succeeds {R : Runtime} (CHL : Dataset)
  (target : Timestamp) (log : list call) :
  ((exists da log', sel_time_nearest CHL target log = (inr da, log')) ->
   exists times,
     ds_time CHL = Some times /\ times <> []
     /\ NoDup (map Calendar.value times)
     /\ (Index.is_monotonic_increasing (map Calendar.value times) = true
         \/ Index.is_monotonic_decreasing (map Calendar.value times)
            = true))
  /\ (forall times,
        ds_time CHL = Some times -> times <> [] ->
        NoDup (map Calendar.value times) ->
        Index.is_monotonic_increasing (map Calendar.value times) = true
        \/ Index.is_monotonic_decreasing (map Calendar.value times) = true ->
        is_timestamp target = true ->
        (forall d, In d times -> is_timestamp d = true) ->
        (forall d, In d times ->
           Z.abs (Calendar.value d - Calendar.value target) <= 2 ^ 63 - 1) ->
        exists da log', sel_time_nearest CHL target log = (inr da, log')).
Proof.
  unfold sel_time_nearest, bind, tell, lift, ret, raise.
  split.
  - intros (da & log' & H).
    destruct (ds_time CHL) as [times|]; [|discriminate].
    destruct (Index.get_indexer_nearest _ _) as [e|i] eqn:Hi; [discriminate|].
    destruct (get_indexer_nearest_inv _ _ _ Hi) as (Hne & Hu & Hm).
    exists times; repeat split; trivial.
    + intros ->; now apply Hne.
    + now apply unique_NoDup.
  - intros times -> Hne Hu Hm _ _ Hfit.
    destruct (get_indexer_nearest_fit (map Calendar.value times)
                (Calendar.value target)) as [i Hi]; trivial.
    + destruct times; [contradiction | discriminate].
    + now apply unique_NoDup.
    + intros a Ha; apply in_map_iff in Ha as (d & <- & Hd).
      specialize (Hfit d Hd); lia.
    + rewrite Hi; eauto.
Qed.

Lemma selection_succeeds_witness :
  exists da log',
    sel_time_nearest (mkDataset (Some [jun10; jun04]) [[NaN]; [PosInf]])
      jun07 [] = (inr da, log').
Proof.
  apply (proj2 (selection_succeeds
                  (mkDataset (Some [jun10; jun04]) [[NaN]; [PosInf]])
                  jun07 []) [jun10; jun04]).
  - reflexivity.
  - discriminate.
  - apply unique_NoDup; reflexivity.
  - right; reflexivity.
  - reflexivity.
  - intros d [<-|[<-|[]]]; reflexivity.
  - intros d [<-|[<-|[]]]; vm_compute; discriminate.
Defined.

(** [X11]: when every path gives a date, there is a granule at least, no
    two dates are at the same time, the dates run upwards or downwards in
    the order of the handles, and the target is a Timestamp from which no
    date is further than an int64 of ticks, the script returns: the array
    it returns is the cleaned region of one granule, labelled with the date
    of that granule's path, and no date is closer to the target. *)
Theorem script_returns_nearest_granule {R : Runtime}
  (lat_lon_west : raster -> raster) (time : Timestamp)
  (fileset : list handle) (dates : list Timestamp) :
  fileset <> [] -> dated fileset dates ->
  NoDup (map Calendar.value dates) ->
  Index.is_monotonic_increasing (map Calendar.value dates) = true
  \/ Index.is_monotonic_decreasing (map Calendar.value dates) = true ->
  is_timestamp time = true ->
  (forall d, In d dates ->
     Z.abs (Calendar.value d - Calendar.value time) <= 2 ^ 63 - 1) ->
  exists i f d,
    nth_error fileset i = Some f /\ nth_error dates i = Some d
    /\ date_of_path (path f) = inr d
    /\ (forall d', In d' dates ->
          Z.abs (Calendar.value time - Calendar.value d)
          <= Z.abs (Calendar.value time - Calendar.value d'))
    /\ run (script lat_lon_west time fileset)
       = (inr (mkDataArray d (cleaning (lat_lon_west (chlor_a f)))),
          (visits fileset
           ++ [OpenMfdataset (map path fileset); AssignCoords; SelRegion;
               SelTime])%list).
Proof.
  intros Hne Hd Hu Hm _ Hfit.
  destruct (get_indexer_nearest_fit (map Calendar.value dates)
              (Calendar.value time)) as [i Hi].
  { pose proof (dated_length _ _ Hd).
    destruct dates; [destruct fileset; [contradiction | discriminate]
                    | discriminate]. }
  { now apply unique_NoDup. }
  { exact Hm. }
  { intros a Ha; apply in_map_iff in Ha as (d & <- & Hin).
    specialize (Hfit d Hin); lia. }
  destruct (nearest_date _ _ _ Hi) as (d & Hid & Hmin & _).
  destruct (dated_nth _ _ Hd _ _ Hid) as (f & Hif & Hfd).
  exists i, f, d; repeat split; trivial.
  rewrite (script_dated _ _ _ _ Hne Hd), select_and_clean_lookup, Hi.
  rewrite (nth_error_nth _ _ time Hid), (nth_region _ _ _ _ Hif).
  now rewrite <- app_assoc.
Qed.

Lemma script_returns_nearest_granule_witness :
  let f1 := mkHandle "PACE_OCI.20240604.L3m.nc" [Fin (-1 # 1)] in
  let f2 := mkHandle "PACE_OCI.20240610.L3m.nc" [Fin (3 # 1)] in
  exists i f d,
    nth_error [f1; f2] i = Some f /\ nth_error [jun04; jun10] i = Some d
    /\ date_of_path (path f) = inr d
    /\ (forall d', In d' [jun04; jun10] ->
          Z.abs (Calendar.value jun07 - Calendar.value d)
          <= Z.abs (Calendar.value jun07 - Calendar.value d'))
    /\ run (script (fun r => r) jun07 [f1; f2])
       = (inr (mkDataArray d (cleaning (chlor_a f))),
          (visits [f1; f2]
           ++ [OpenMfdataset (map path [f1; f2]); AssignCoords; SelRegion;
               SelTime])%list).
Proof.
  intros f1 f2.
  apply (script_returns_nearest_granule (fun r => r) jun07 [f1; f2]
           [jun04; jun10]).
  - discriminate.
  - repeat constructor.
  - apply unique_NoDup; reflexivity.
  - left; reflexivity.
  - reflexivity.
  - intros d [<-|[<-|[]]]; vm_compute; discriminate.
Defined.

(** [X12]: whenever the script returns, every path has given a date, and
    the array returned is the cleaned region of one granule, labelled with
    the date of that granule's path; no date is closer to the target, and
    the calls made are one visit for each handle followed by the four calls
    into xarray. *)
Theorem script_success_inv {R : Runtime} (lat_lon_west : raster -> raster)
  (time : Timestamp) (fileset : list handle) (da : DataArray)
  (log : list call) :
  run (script lat_lon_west time fileset) = (inr da, log) ->
  exists dates i f,
    dated fileset dates
    /\ nth_error fileset i = Some f
    /\ nth_error dates i = Some (da_time da)
    /\ date_of_path (path f) = inr (da_time da)
    /\ da_values da = cleaning (lat_lon_west (chlor_a f))
    /\ (forall d', In d' dates ->
          Z.abs (Calendar.value time - Calendar.value (da_time da))
          <= Z.abs (Calendar.value time - Calendar.value d'))
    /\ log = (visits fileset
              ++ [OpenMfdataset (map path fileset); AssignCoords; SelRegion;
                  SelTime])%list.
Proof.
  intros H.
  destruct (extract_dates fileset [] []) as [[e|dates] l] eqn:E.
  - unfold run, script, bind in H; rewrite E in H; discriminate.
  - destruct (extract_dates_inv _ _ _ _ _ E) as (ts & Hd & Ets & _).
    simpl in Ets; subst ts.
    destruct fileset as [|f0 fs].
    + inversion Hd; subst; cbv in H; discriminate.
    + assert (Hne : f0 :: fs <> []) by discriminate.
      rewrite (script_dated _ _ _ _ Hne Hd), select_and_clean_lookup in H.
      destruct (Index.get_indexer_nearest _ _) as [e|i] eqn:Hi;
        [discriminate|].
      destruct (nearest_date _ _ _ Hi) as (d & Hid & Hmin & _).
      destruct (dated_nth _ _ Hd _ _ Hid) as (f & Hif & Hfd).
      rewrite (nth_error_nth _ _ time Hid), (nth_region _ _ _ _ Hif) in H.
      inversion H; subst da log; cbn [da_time da_values].
      exists dates, i, f; repeat split; trivial.
      now rewrite <- app_assoc.
Qed.

Lemma script_success_inv_witness :
  let f1 := mkHandle "PACE_OCI.20240610.L3m.nc" [Fin (1 # 1000)] in
  let f2 := mkHandle "PACE_OCI.20240604.L3m.nc" [Fin (3 # 1)] in
  exists dates i f,
    dated [f1; f2] dates
    /\ nth_error [f1; f2] i = Some f
    /\ nth_error dates i = Some jun10
    /\ date_of_path (path f) = inr jun10
    /\ [Fin (1 # 100)] = cleaning (chlor_a f)
    /\ (forall d', In d' dates ->
          Z.abs (Calendar.value jun07 - Calendar.value jun10)
          <= Z.abs (Calendar.value jun07 - Calendar.value d'))
    /\ [LoopBody (path f1); LoopBody (path f2);
        OpenMfdataset [path f1; path f2]; AssignCoords; SelRegion; SelTime]
       = (visits [f1; f2]
          ++ [OpenMfdataset (map path [f1; f2]); AssignCoords; SelRegion;
              SelTime])%list.
Proof.
  intros f1 f2.
  apply (script_success_inv (fun r => r) jun07 [f1; f2]
           (mkDataArray jun10 [Fin (1 # 100)])).
  reflexivity.
Defined.

(** [X13]: when every path gives a date and two handles give the same
    date, the script ends in the nearest-time selection with
    InvalidIndexError, after it has opened the granules and overwritten
    the coordinate. *)
Theorem duplicate_dates_raise {R : Runtime} (lat_lon_west : raster -> raster)
  (time : Timestamp) (fileset : list handle) (dates : list Timestamp) :
  dated fileset dates -> ~ NoDup dates ->
  run (script lat_lon_west time fileset)
  = (inl InvalidIndexError,
     (visits fileset
      ++ [OpenMfdataset (map path fileset); AssignCoords; SelRegion;
          SelTime])%list).
Proof.
  intros Hd Hdup.
  assert (Hne : fileset <> []).
  { intros ->; inversion Hd; subst; apply Hdup; constructor. }
  rewrite (script_dated _ _ _ _ Hne Hd), select_and_clean_lookup.
  unfold Index.get_indexer_nearest.
  destruct (Index.is_unique (map Calendar.value dates)) eqn:Hu.
  - exfalso; apply Hdup.
    apply unique_NoDup in Hu.
    exact (NoDup_map_inv _ _ Hu).
  - cbn [negb]; now rewrite <- app_assoc.
Qed.

Lemma duplicate_dates_raise_witness :
  let f1 := mkHandle "PACE_OCI.20240604.L3m.DAY.CHL.4km.nc" [] in
  let f2 := mkHandle "PACE_OCI.20240604.L3m.DAY.CHL.4km.NRT.nc" [] in
  run (script (fun r => r) jun07 [f1; f2])
  = (inl InvalidIndexError,
     [LoopBody (path f1); LoopBody (path f2);
      OpenMfdataset [path f1; path f2]; AssignCoords; SelRegion; SelTime]).
Proof.
  intros f1 f2.
  apply (duplicate_dates_raise (fun r => r) jun07 [f1; f2] [jun04; jun04]).
  - repeat constructor.
  - intros H; inversion H as [|? ? Hn _]; apply Hn; now left.
Defined.

(** [X14]: when every path gives a date, no two dates are at the same
    time, and the dates run neither upwards nor downwards in the order of
    the handles, the script ends in the nearest-time selection with the
    error of an index that is not monotonic. *)
Theorem unordered_dates_raise {R : Runtime} (lat_lon_west : raster -> raster)
  (time : Timestamp) (fileset : list handle) (dates : list Timestamp) :
  dated fileset dates ->
  NoDup (map Calendar.value dates) ->
  Index.is_monotonic_increasing (map Calendar.value dates) = false ->
  Index.is_monotonic_decreasing (map Calendar.value dates) = false ->
  run (script lat_lon_west time fileset)
  = (inl NotMonotonic,
     (visits fileset
      ++ [OpenMfdataset (map path fileset); AssignCoords; SelRegion;
          SelTime])%list).
Proof.
  intros Hd Hu Hi Hdec.
  assert (Hne : fileset <> []).
  { intros ->; inversion Hd; subst; discriminate. }
  rewrite (script_dated _ _ _ _ Hne Hd), select_and_clean_lookup.
  unfold Index.get_indexer_nearest.
  apply unique_NoDup in Hu; rewrite Hu, Hi, Hdec; cbn [negb orb].
  now rewrite <- app_assoc.
Qed.

Lemma unordered_dates_raise_witness :
  let f1 := mkHandle "PACE_OCI.20240604.L3m.nc" [] in
  let f2 := mkHandle "PACE_OCI.20240610.L3m.nc" [] in
  let f3 := mkHandle "PACE_OCI.20240607.L3m.nc" [] in
  run (script (fun r => r) jun07 [f1; f2; f3])
  = (inl NotMonotonic,
     [LoopBody (path f1); LoopBody (path f2); LoopBody (path f3);
      OpenMfdataset [path f1; path f2; path f3]; AssignCoords; SelRegion;
      SelTime]).
Proof.
  intros f1 f2 f3.
  apply (unordered_dates_raise (fun r => r) jun07 [f1; f2; f3]
           [jun04; jun10; jun07]).
  - repeat constructor.
  - apply unique_NoDup; reflexivity.
  - reflexivity.
  - reflexivity.
Defined.

(** ** The order of Timestamps *)

Section CalendarOrder.

Context {R : Runtime}.

Import Calendar.

Ltac months' m :=
  let H := fresh "Hm" in
  assert (H : m = 1 \/ m = 2 \/ m = 3 \/ m = 4 \/ m = 5 \/ m = 6 \/ m = 7
              \/ m = 8 \/ m = 9 \/ m = 10 \/ m = 11 \/ m = 12) by lia;
  repeat (destruct H as [H|H]); subst m.

Ltac tables' :=
  lazy beta iota delta
    [days_before_month days_in_month Z.ltb Z.compare Pos.compare
     Pos.compare_cont andb] in *.

Lemma is_leap_cases (y : Z) :
  (is_leap y = true
   /\ y / 4 - (y - 1) / 4 - (y / 100 - (y - 1) / 100)
      + (y / 400 - (y - 1) / 400) = 1)
  \/ (is_leap y = false
      /\ y / 4 - (y - 1) / 4 - (y / 100 - (y - 1) / 100)
         + (y / 400 - (y - 1) / 400) = 0).
Proof.
  unfold is_leap.
  assert (H4 : y / 4 - (y - 1) / 4 = if y mod 4 =? 0 then 1 else 0)
    by (destruct (Z.eqb_spec (y mod 4) 0);
        Z.to_euclidean_division_equations; lia).
  assert (H100 : y / 100 - (y - 1) / 100 = if y mod 100 =? 0 then 1 else 0)
    by (destruct (Z.eqb_spec (y mod 100) 0);
        Z.to_euclidean_division_equations; lia).
  assert (H400 : y / 400 - (y - 1) / 400 = if y mod 400 =? 0 then 1 else 0)
    by (destruct (Z.eqb_spec (y mod 400) 0);
        Z.to_euclidean_division_equations; lia).
  rewrite H4, H100, H400.
  destruct (Z.eqb_spec (y mod 4) 0) as [E4|E4];
    destruct (Z.eqb_spec (y mod 100) 0) as [E100|E100];
    destruct (Z.eqb_spec (y mod 400) 0) as [E400|E400];
    cbn [andb orb negb]; auto; exfalso;
    revert E4 E100 E400; Z.to_euclidean_division_equations; lia.
Qed.

Lemma days_before_year_succ (y : Z) :
  days_before_year (y + 1)
  = days_before_year y + 365 + (if is_leap y then 1 else 0).
Proof.
  unfold days_before_year.
  replace (y + 1 - 1) with y by lia.
  destruct (is_leap_cases y) as [[-> H]|[-> H]]; lia.
Qed.

Lemma days_before_year_le (y z : Z) :
  y <= z -> days_before_year y <= days_before_year z.
Proof. intros H; pose proof (days_before_year_mono y z H); lia. Qed.

Lemma day_of_year_le (t : Timestamp) :
  valid_date t = true ->
  1 <= days_before_month (year t) (month t) + day t
    <= 365 + (if is_leap (year t) then 1 else 0).
Proof.
  destruct t as [y m d]; unfold valid_date.
  cbn [year month day]; intros H.
  repeat match goal with
         | H : (_ && _)%bool = true |- _ => apply andb_prop in H; destruct H
         | H : (_ <=? _) = true |- _ => apply Z.leb_le in H
         end.
  months' m; tables'; destruct (is_leap y); lia.
Qed.

(** Within one year the ordinal follows month and day. *)
Lemma same_year_order (y m d m' d' : Z) :
  valid_date (mkTimestamp y m d) = true ->
  valid_date (mkTimestamp y m' d') = true ->
  (m < m' \/ (m = m' /\ d <= d'))
  <-> days_before_month y m + d <= days_before_month y m' + d'.
Proof.
  unfold valid_date; cbn [year month day]; intros H H'.
  repeat match goal with
         | H : (_ && _)%bool = true |- _ => apply andb_prop in H; destruct H
         | H : (_ <=? _) = true |- _ => apply Z.leb_le in H
         end.
  months' m; months' m'; tables'; destruct (is_leap y); lia.
Qed.

Lemma toordinal_order (a b : Timestamp) :
  valid_date a = true -> valid_date b = true ->
  (date_leb a b = true <-> toordinal a <= toordinal b).
Proof.
  intros Ha Hb.
  pose proof (day_of_year_le a Ha) as Da.
  pose proof (day_of_year_le b Hb) as Db.
  destruct a as [y m d], b as [y' m' d'].
  unfold date_leb, toordinal; cbn [year month day] in *.
  destruct (Z.lt_trichotomy y y') as [Hlt|[->|Hgt]].
  - pose proof (days_before_year_succ y) as Hy.
    pose proof (days_before_year_le (y + 1) y') as Hy'.
    split; intros _; lia.
  - pose proof (same_year_order y' m d m' d' Ha Hb) as Hs.
    split; intros Hle.
    + assert (Hlex : m < m' \/ m = m' /\ d <= d') by lia.
      apply Hs in Hlex; lia.
    + assert (Hord : days_before_month y' m + d
                     <= days_before_month y' m' + d') by lia.
      apply Hs in Hord; lia.
  - pose proof (days_before_year_succ y') as Hy.
    pose proof (days_before_year_le (y' + 1) y) as Hy'.
    split; intros Hle; [exfalso|]; lia.
Qed.

End CalendarOrder.

(** [X15]: two dates of the calendar compare as Timestamps, by their
    int64 values, the way they compare by year, month and day; and two
    such dates with the same value are the same date. *)
Theorem value_order {R : Runtime} (a b : Timestamp) :
  Calendar.valid_date a = true -> Calendar.valid_date b = true ->
  (Calendar.date_leb a b = true <-> Calendar.value a <= Calendar.value b)
  /\ (Calendar.value a = Calendar.value b -> a = b).
Proof.
  intros Ha Hb.
  pose proof (toordinal_order a b Ha Hb) as Hab.
  pose proof (toordinal_order b a Hb Ha) as Hba.
  unfold Calendar.value, Calendar.ticks_per_day.
  destruct reso; (split; [rewrite Hab; lia|]).
  all: intros E.
  all: assert (H1 : Calendar.date_leb a b = true) by (apply Hab; lia).
  all: assert (H2 : Calendar.date_leb b a = true) by (apply Hba; lia).
  all: destruct a as [y m d], b as [y' m' d'].
  all: unfold Calendar.date_leb in H1, H2; cbn [year month day] in *.
  all: assert (y = y' /\ m = m' /\ d = d') as (-> & -> & ->) by lia.
  all: reflexivity.
Qed.

Lemma value_order_witness :
  (Calendar.date_leb jun04 jun10 = true
   <-> Calendar.value jun04 <= Calendar.value jun10)
  /\ (Calendar.value jun04 = Calendar.value jun10 -> jun04 = jun10).
Proof.
  apply (value_order jun04 jun10); reflexivity.
Defined.

